(** * PEFT layer injection for tensor-parallel models: LoRA transform,
      freeze-and-walk orchestration, adapter forward and state-dict merging.

    Shallow embedding of
      - nemo/collections/llm/peft/lora.py    (AdapterParallelAdd.forward, LoRA.transform)
      - nemo/collections/llm/adapter/base.py (AdapterWrapper.state_dict,
                                              AdapterWrapper.load_state_dict,
                                              peft_model_transform)
    Python integers are unbounded and are modelled by [Z]; Python dictionaries
    are objects of a heap of finite maps, so that aliasing and in-place
    mutation stay visible; exceptions are values of type [exn]. *)

From Stdlib Require Import ZArith Lia.
From stdpp Require Import gmap strings list fin_maps.

(** ** Python exceptions and the state-and-exception monad *)

(** The exceptions that the modelled code can raise.  [BoolError] is the
    [RuntimeError] of [bool(t)] on a tensor that does not have exactly one
    element; [BroadcastError] is the [RuntimeError] of [a + b] on two tensors
    whose shapes do not broadcast; [LoadError] is the [RuntimeError] that
    torch's [Module.load_state_dict] raises, with the missing keys, the
    unexpected keys and the keys whose value could not be copied. *)
Inductive exn :=
| AttributeError (attr : string)
| TypeError (msg : string)
| ValueError (msg : string)
| KeyError (key : string)
| BoolError
| BroadcastError
| LoadError (missing unexpected mismatched : gset string).

(** The name of the Python class of an exception. *)
Definition py_class (e : exn) : string :=
  match e with
  | AttributeError _ => "AttributeError"
  | TypeError _ => "TypeError"
  | ValueError _ => "ValueError"
  | KeyError _ => "KeyError"
  | BoolError => "RuntimeError"
  | BroadcastError => "RuntimeError"
  | LoadError _ _ _ => "RuntimeError"
  end.

Inductive outcome (A : Type) :=
| Ok (a : A)
| Raise (e : exn).
Arguments Ok {A} a.
Arguments Raise {A} e.

(** A computation over a mutable state [S]: the state survives an exception,
    as the mutations done before a Python [raise] do. *)
Definition St (S A : Type) : Type := S -> outcome A * S.

Definition ret {S A} (a : A) : St S A := fun s => (Ok a, s).

Definition raise {S A} (e : exn) : St S A := fun s => (Raise e, s).

Definition bind {S A B} (c : St S A) (k : A -> St S B) : St S B :=
  fun s => match c s with
           | (Ok a, s') => k a s'
           | (Raise e, s') => (Raise e, s')
           end.

Notation "'let*' x ':=' c1 'in' c2" := (bind c1 (fun x => c2))
  (at level 10, x pattern, c1 at level 100, c2 at level 200).

(** A [for] loop that collects one result per element. *)
Definition mapM {S A B} (f : A -> St S B) : list A -> St S (list B) :=
  fix go (l : list A) : St S (list B) :=
    match l with
    | [] => ret []
    | x :: rest =>
        let* y := f x in
        let* ys := go rest in
        ret (y :: ys)
    end.

(** Pointwise comparison of two lists. *)
Definition list_beq {A} (eqb : A -> A -> bool) : list A -> list A -> bool :=
  fix go (l1 l2 : list A) : bool :=
    match l1, l2 with
    | [], [] => true
    | x1 :: r1, x2 :: r2 => eqb x1 x2 && go r1 r2
    | _, _ => false
    end.

(** ** Modules, parameters and the LoRA policy (lora.py) *)

(** A parameter is an object of the parameter store; the store keeps the
    [requires_grad] flag of every allocated parameter. *)
Abbreviation ploc := nat (only parsing).
Abbreviation store := (list bool) (only parsing).

Inductive dropout_pos := pre | post.

(** The keyword arguments of the [ParallelLinearAdapter] constructor.  The
    dropout rate is a float that is only passed through: it is kept as its
    IEEE-754 bit pattern. *)
Record adapter_args := {
  a_in_features : Z;
  a_out_features : Z;
  a_dim : Z;
  a_activation : string;
  a_norm_position : option string;
  a_norm_type : option string;
  a_column_init_method : string;
  a_row_init_method : string;
  a_gather_output : bool;
  a_input_is_parallel : bool;
  a_dropout : Z;
  a_dropout_position : dropout_pos;
  a_alpha : Z
}.

#[global] Instance dropout_pos_eq_dec : EqDecision dropout_pos.
Proof. solve_decision. Defined.

#[global] Instance adapter_args_eq_dec : EqDecision adapter_args.
Proof. solve_decision. Defined.

(** A module of the model tree.  [Module] is any ordinary layer or container:
    the attributes [in_features] and [out_features] when the layer has them,
    its own parameters, and its named children in declaration order.
    [AdapterParallelAdd] is the wrapper class of lora.py: an [AdapterWrapper]
    holding [to_wrap] and [adapter]. *)
#[warnings="-register-all"]
Inductive module :=
| Module (in_features out_features : option Z)
         (parameters : list (string * ploc))
         (children : list (string * module))
| ParallelLinearAdapter (args : adapter_args) (parameters : list (string * ploc))
| AdapterParallelAdd (to_wrap adapter : module).

(** [m.in_features] and [m.out_features]: attribute access on a module that
    lacks the attribute raises [AttributeError]. *)
Definition get_in_features {S} (m : module) : St S Z :=
  match m with
  | Module (Some i) _ _ _ => ret i
  | _ => raise (AttributeError "in_features")
  end.

Definition get_out_features {S} (m : module) : St S Z :=
  match m with
  | Module _ (Some o) _ _ => ret o
  | _ => raise (AttributeError "out_features")
  end.

(** The dataclass [LoRA]. *)
Record LoRA := {
  target_modules : list string;
  dim : Z;
  alpha : Z;
  dropout : Z;
  dropout_position : dropout_pos
}.

(** The defaults of the dataclass fields. *)
Definition LoRA_default : LoRA :=
  {| target_modules := ["linear_qkv"; "linear_proj"];
     dim := 32; alpha := 32; dropout := 0; dropout_position := post |}.

(** [name in names], for a name that may be [None]. *)
Definition name_in (name : option string) (names : list string) : bool :=
  match name with
  | Some n => bool_decide (n ∈ names)
  | None => false
  end.

(** Modelled from the spec: the constructor of [ParallelLinearAdapter]
    (nemo.collections.nlp.modules.common.megatron.adapters.parallel_adapters),
    which is not part of the sources at hand.  It keeps its arguments and
    creates the two weights of the low-rank path; the parameters of an adapter
    are trainable at construction. *)
Definition new_ParallelLinearAdapter (args : adapter_args) : St store module :=
  fun s =>
    (Ok (ParallelLinearAdapter args
           [("linear_in.weight", length s); ("linear_out.weight", S (length s))]),
     s ++ [true; true]).

(** [LoRA.transform(m, name, prefix)], with the tensor-parallel world size
    [tp_size] that the code reads from the global parallel state.  The call
    to [logging.info] has no effect on the result and is left out. *)
Definition transform (self : LoRA) (tp_size : Z)
    (m : module) (name prefix : option string) : St store module :=
  if name_in name (target_modules self) then
    let* (input_is_parallel, in_features, out_features) :=
      (if name_in name ["linear_qkv"; "linear_fc1"] then
         let* i := get_in_features m in
         let* o := get_out_features m in
         ret (false, i, (o * tp_size)%Z)
       else
         let* i := get_in_features m in
         let* o := get_out_features m in
         ret (true, (i * tp_size)%Z, o)) in
    let* adapter := new_ParallelLinearAdapter
      {| a_in_features := in_features;
         a_out_features := out_features;
         a_dim := dim self;
         a_activation := "identity";
         a_norm_position := None;
         a_norm_type := None;
         a_column_init_method := "normal";
         a_row_init_method := "zero";
         a_gather_output := false;
         a_input_is_parallel := input_is_parallel;
         a_dropout := dropout self;
         a_dropout_position := dropout_position self;
         a_alpha := alpha self |} in
    ret (AdapterParallelAdd m adapter)
  else ret m.

(** ** Freeze and walk (adapter/base.py, [peft_model_transform]) *)

(** [parameters()]: every parameter owned by the module or by a module below
    it. *)
Fixpoint params_of (m : module) : list ploc :=
  match m with
  | Module _ _ ps cs => map snd ps ++ flat_map (fun nc => params_of (snd nc)) cs
  | ParallelLinearAdapter _ ps => map snd ps
  | AdapterParallelAdd b a => params_of b ++ params_of a
  end.

(** The parameters that belong to the [adapter] of some wrapper of the tree. *)
Fixpoint adapter_params_of (m : module) : list ploc :=
  match m with
  | Module _ _ _ cs => flat_map (fun nc => adapter_params_of (snd nc)) cs
  | ParallelLinearAdapter _ _ => []
  | AdapterParallelAdd b a => adapter_params_of b ++ params_of a
  end.

(** Modelled from the spec: [MegatronParallel.freeze]
    (nemo.lightning.megatron_parallel), which is not part of the sources at
    hand: it marks every parameter owned by the model as non-trainable. *)
Definition freeze (m : module) : St store unit :=
  fun s => (Ok tt, foldr (fun l s' => <[l := false]> s') s (params_of m)).

(** The model has values where Python has objects: the test that the module
    returned by the policy is the very module that was passed is the test
    that the two values are the same. *)
Fixpoint module_beq (m1 m2 : module) : bool :=
  match m1, m2 with
  | Module i1 o1 ps1 cs1, Module i2 o2 ps2 cs2 =>
      bool_decide (i1 = i2) && bool_decide (o1 = o2) && bool_decide (ps1 = ps2) &&
      list_beq (fun nc1 nc2 =>
                  bool_decide (fst nc1 = fst nc2) && module_beq (snd nc1) (snd nc2))
               cs1 cs2
  | ParallelLinearAdapter a1 ps1, ParallelLinearAdapter a2 ps2 =>
      bool_decide (a1 = a2) && bool_decide (ps1 = ps2)
  | AdapterParallelAdd b1 a1, AdapterParallelAdd b2 a2 =>
      module_beq b1 b2 && module_beq a1 a2
  | _, _ => false
  end.

(** The path handed to the policy for the children of a module. *)
Definition child_prefix (prefix name : option string) : option string :=
  match prefix, name with
  | Some p, Some n => Some (p +:+ "." +:+ n)
  | None, Some n => Some n
  | _, None => prefix
  end.

(** Modelled from the spec: [MegatronParallel.walk]
    (nemo.lightning.megatron_parallel), which is not part of the sources at
    hand.  Depth first, a parent before its children, the children in
    declaration order; the policy is asked at every module; a module that the
    policy replaces takes the place of the original in its parent, and neither
    it nor what is below it is visited again in the same pass.  The children
    of a wrapper are its [to_wrap] and its [adapter], under these names. *)
Fixpoint walk (wrap_fn : module -> option string -> option string -> St store module)
    (m : module) (name prefix : option string) {struct m} : St store module :=
  let* r := wrap_fn m name prefix in
  if module_beq r m then
    match m with
    | Module i o ps cs =>
        let* cs' :=
          mapM (fun nc =>
                  let* c' := walk wrap_fn (snd nc) (Some (fst nc))
                               (child_prefix prefix name) in
                  ret (fst nc, c')) cs in
        ret (Module i o ps cs')
    | ParallelLinearAdapter _ _ => ret m
    | AdapterParallelAdd b a =>
        let* b' := walk wrap_fn b (Some "to_wrap") (child_prefix prefix name) in
        let* a' := walk wrap_fn a (Some "adapter") (child_prefix prefix name) in
        ret (AdapterParallelAdd b' a')
    end
  else ret r.

(** [peft_model_transform(wrap_fn)]: the returned [model_fn] first freezes the
    base model, then walks it with [wrap_fn].  The Python function mutates the
    model in place; here the transformed model is returned. *)
Definition peft_model_transform
    (wrap_fn : module -> option string -> option string -> St store module)
    : module -> St store module :=
  fun m =>
    let* _ := freeze m in
    walk wrap_fn m None None.


(** No module of the tree is a wrapper yet. *)
Fixpoint wrapper_free (m : module) : bool :=
  match m with
  | Module _ _ _ cs => forallb (fun nc => wrapper_free (snd nc)) cs
  | ParallelLinearAdapter _ _ => true
  | AdapterParallelAdd _ _ => false
  end.

(** A policy of the expected kind: asked about a module, it keeps the module
    and the store, or wraps the module with an adapter whose parameters are
    newly allocated and trainable; when it raises, the store is as before. *)
Definition wraps_with_fresh_adapter
    (wrap_fn : module -> option string -> option string -> St store module) : Prop :=
  forall m n p s r s',
    wrap_fn m n p s = (r, s') ->
    match r with
    | Ok r =>
        (r = m /\ s' = s) \/
        (exists a k, r = AdapterParallelAdd m a /\ s' = s ++ replicate k true /\
                     params_of a = seq (length s) k)
    | Raise _ => s' = s
    end.

(** What a walk leaves behind: the store has grown by trainable parameters
    only, and a resulting model owns the parameters it owned before and the
    new ones, the new ones inside adapters. *)
Definition walk_post (m : module) (s : store) (r : outcome module) (s' : store) : Prop :=
  exists k, s' = s ++ replicate k true /\
    forall m', r = Ok m' ->
      params_of m' ≡ₚ params_of m ++ seq (length s) k /\
      adapter_params_of m' ≡ₚ adapter_params_of m ++ seq (length s) k.

(** What a second walk with the LoRA policy does at a module: nothing, or
    AttributeError. *)
Definition rewalk_post (self : LoRA) (T : Z) (m1 : module) (n : option string) : Prop :=
  forall p s,
    walk (transform self T) m1 n p s = (Ok m1, s) \/
    walk (transform self T) m1 n p s = (Raise (AttributeError "in_features"), s).

(** A small model used in the examples: an attention block with the fused
    QKV projection and the output projection, and an MLP with one layer. *)
Definition example_model : module :=
  Module None None []
    [("self_attention",
      Module None None []
        [("linear_qkv", Module (Some 768%Z) (Some 192%Z) [("weight", 0)] []);
         ("linear_proj", Module (Some 192%Z) (Some 768%Z) [("weight", 1); ("bias", 2)] [])]);
     ("mlp",
      Module None None [("scale", 3)]
        [("linear_fc1", Module (Some 768%Z) (Some 768%Z) [("weight", 4)] [])])].

(** ** Tensors *)

(** Tensors and their kernels belong to torch.  The code below only needs
    the shape of a tensor, its truth value ([bool(t)] raises when the tensor
    does not have exactly one element), its sum with another tensor (which
    raises when the two shapes do not broadcast) and its iteration along the
    first dimension (which raises on a 0-d tensor). *)
Class Torch (tensor : Type) := {
  shape : tensor -> list nat;
  tensor_bool : tensor -> outcome bool;
  tensor_add : tensor -> tensor -> outcome tensor;
  tensor_iter : tensor -> outcome (list tensor)
}.

(** A tensor instance for the examples: 0-d and 1-d tensors of 64-bit
    integers. *)
Inductive toy_tensor :=
| Scalar (z : Z)
| Vector (zs : list Z).

(** The sum of two 64-bit integers wraps around. *)
Definition add64 (a b : Z) : Z :=
  ((a + b + 2 ^ 63) mod 2 ^ 64 - 2 ^ 63)%Z.

(** The sum of two 1-d tensors: the lengths have to be equal, or one of
    them has to be 1, in which case its element is added to every element
    of the other. *)
Definition toy_add_vectors (xs ys : list Z) : outcome toy_tensor :=
  if bool_decide (length xs = length ys) then Ok (Vector (zip_with add64 xs ys))
  else match xs, ys with
       | [a], _ => Ok (Vector (map (add64 a) ys))
       | _, [b] => Ok (Vector (map (fun a => add64 a b) xs))
       | _, _ => Raise BroadcastError
       end.

#[global] Instance toy_torch : Torch toy_tensor := {|
  shape t := match t with Scalar _ => [] | Vector zs => [length zs] end;
  tensor_bool t :=
    match t with
    | Scalar z | Vector [z] => Ok (negb (Z.eqb z 0))
    | Vector _ => Raise BoolError
    end;
  tensor_add t1 t2 :=
    match t1, t2 with
    | Scalar a, Scalar b => Ok (Scalar (add64 a b))
    | Scalar a, Vector bs => Ok (Vector (map (add64 a) bs))
    | Vector xs, Scalar b => Ok (Vector (map (fun a => add64 a b) xs))
    | Vector xs, Vector bs => toy_add_vectors xs bs
    end;
  tensor_iter t :=
    match t with
    | Scalar _ => Raise (TypeError "iteration over a 0-d tensor")
    | Vector zs => Ok (map Scalar zs)
    end
|}.

(** ** AdapterParallelAdd.forward (lora.py) *)

Section Forward.
Context {tensor : Type} `{Torch tensor}.

(** What a module's forward takes and returns: a tensor, a tuple, or None
    (a linear layer without bias returns None for the bias). *)
#[warnings="-register-all"]
Inductive pyval :=
| PTensor (t : tensor)
| PTuple (vs : list pyval)
| PNone.

(** [a, b = v]: unpacking into exactly two targets. *)
Definition unpack2 {S} (v : pyval) : St S (pyval * pyval) :=
  match v with
  | PTuple [a; b] => ret (a, b)
  | PTuple ([] | [_]) => raise (ValueError "not enough values to unpack")
  | PTuple _ => raise (ValueError "too many values to unpack")
  | PTensor t =>
      match tensor_iter t with
      | Ok [a; b] => ret (PTensor a, PTensor b)
      | Ok ([] | [_]) => raise (ValueError "not enough values to unpack")
      | Ok _ => raise (ValueError "too many values to unpack")
      | Raise e => raise e
      end
  | PNone => raise (TypeError "cannot unpack non-iterable NoneType object")
  end.

(** [a + b]: the sum of two tensors, which raises what torch raises when
    the shapes do not broadcast; on two tuples Python concatenates. *)
Definition py_add {S} (a b : pyval) : St S pyval :=
  match a, b with
  | PTensor x, PTensor y =>
      match tensor_add x y with
      | Ok t => ret (PTensor t)
      | Raise e => raise e
      end
  | PTuple xs, PTuple ys => ret (PTuple (xs ++ ys))
  | _, _ => raise (TypeError "unsupported operand type(s) for +")
  end.

(** [isinstance(v, tuple) and len(v) == 2] *)
Definition is_pair (v : pyval) : bool :=
  match v with
  | PTuple [_; _] => true
  | _ => false
  end.

(** [AdapterParallelAdd.forward(x)], for a wrapper whose [to_wrap] and
    [adapter] are called through [to_wrap_call] and [adapter_call]; [S] is
    whatever state the two modules keep. *)
Definition forward {S} (to_wrap_call adapter_call : pyval -> St S pyval)
    (x : pyval) : St S pyval :=
  let* r := to_wrap_call x in
  let* (linear_output, bias) := unpack2 r in
  let* (linear_output, adapter_output) :=
    (if is_pair linear_output then
       let* (linear_output, layernorm_output) := unpack2 linear_output in
       let* adapter_output := adapter_call layernorm_output in
       ret (linear_output, adapter_output)
     else
       let* adapter_output := adapter_call x in
       ret (linear_output, adapter_output)) in
  let* sum := py_add linear_output adapter_output in
  ret (PTuple [sum; bias]).
End Forward.

Arguments pyval tensor : clear implicits.

(** ** AdapterWrapper.state_dict and load_state_dict (adapter/base.py) *)

Section StateDict.
Context {tensor : Type} `{Torch tensor}.

(** A value stored in a state dict: a tensor, or a reference to another
    dictionary of the heap. *)
Inductive val :=
| VT (t : tensor)
| VD (l : nat).

(** The two sub-modules of a wrapper are ordinary torch modules, given by
    their named parameters and persistent buffers (qualified names, as
    [named_parameters()] yields them). *)
Record AdapterWrapper := {
  to_wrap : gmap string tensor;
  adapter : gmap string tensor
}.

Inductive submodule := ToWrap | Adapter.

(** The calls that a wrapper makes on its sub-modules: [state_dict] with
    its destination and prefix, [load_state_dict] with the state handed
    over, its content at the time of the call, and the strict flag. *)
Inductive call :=
| CallStateDict (who : submodule) (destination : option nat) (prefix : string)
| CallLoadStateDict (who : submodule) (state : val)
                    (content : gmap string val) (strict : bool).

(** The world in which the methods of a wrapper run: the wrapper's own
    sub-modules, the heap of dictionary objects, and the calls made so far. *)
Record world := {
  self : AdapterWrapper;
  dicts : list (gmap string val);
  trace : list call
}.

Definition sub (who : submodule) (w : AdapterWrapper) : gmap string tensor :=
  match who with ToWrap => to_wrap w | Adapter => adapter w end.

Definition set_sub (who : submodule) (ps : gmap string tensor)
    (w : AdapterWrapper) : AdapterWrapper :=
  match who with
  | ToWrap => {| to_wrap := ps; adapter := adapter w |}
  | Adapter => {| to_wrap := to_wrap w; adapter := ps |}
  end.

(** *** Dictionaries *)

Definition deref (ds : list (gmap string val)) (l : nat) : gmap string val :=
  default ∅ (ds !! l).

(** [{}] *)
Definition new_dict : St world nat :=
  fun w => (Ok (length (dicts w)),
            {| self := self w; dicts := dicts w ++ [∅]; trace := trace w |}).

(** [k in d] *)
Definition dict_contains (d : nat) (k : string) : St world bool :=
  fun w => (Ok (bool_decide (is_Some (deref (dicts w) d !! k))), w).

(** [d[k] = v] *)
Definition dict_set (d : nat) (k : string) (v : val) : St world unit :=
  fun w => (Ok tt,
            {| self := self w;
               dicts := <[d := <[k := v]> (deref (dicts w) d)]> (dicts w);
               trace := trace w |}).

(** [d.pop(k)]; the code only pops a key that it has found. *)
Definition dict_pop (d : nat) (k : string) : St world val :=
  fun w =>
    match deref (dicts w) d !! k with
    | Some v => (Ok v,
                 {| self := self w;
                    dicts := <[d := delete k (deref (dicts w) d)]> (dicts w);
                    trace := trace w |})
    | None => (Raise (KeyError k), w)
    end.

(** [if v:] -- a dictionary is true when it is not empty. *)
Definition truthy (v : val) : St world bool :=
  fun w =>
    match v with
    | VD l => (Ok (negb (bool_decide (deref (dicts w) l = ∅))), w)
    | VT t => (match tensor_bool t with Ok b => Ok b | Raise e => Raise e end, w)
    end.

(** *** The sub-modules' own export and import (torch.nn.Module) *)

(** The entries that a module writes: one per parameter, under the prefix.
    With or without [keep_vars] the entry holds the parameter's value. *)
Definition torch_export (ps : gmap string tensor) (prefix : string)
    : gmap string val :=
  kmap (String.app prefix) (VT <$> ps).

(** [sub.state_dict(destination, prefix, keep_vars)]: the entries are
    written into [destination] (a new dictionary when it is None) and the
    destination itself is returned. *)
Definition sub_state_dict (who : submodule) (destination : option nat)
    (prefix : string) (keep_vars : bool) : St world nat :=
  fun w =>
    let d := match destination with Some d => d | None => length (dicts w) end in
    let ds := match destination with Some _ => dicts w | None => dicts w ++ [∅] end in
    (Ok d,
     {| self := self w;
        dicts := <[d := torch_export (sub who (self w)) prefix ∪ deref ds d]> ds;
        trace := trace w ++ [CallStateDict who destination prefix] |}).

(** The tensor that an import copies into the parameter [old] for the
    entry [v], if any.  The entry has to be a tensor.  For a 0-d parameter
    torch first replaces a 1-d tensor by its first element (a rule kept for
    checkpoints written by torch 0.3).  The tensor is copied when it has the
    shape of the parameter.  A 1-d tensor without elements has no first
    element: torch stops at that parameter with IndexError; the model has no
    order among the parameters to stop at and takes such an entry as one that
    cannot be copied. *)
Definition incoming (old : tensor) (v : val) : option tensor :=
  match v with
  | VT t =>
      let input_param :=
        if bool_decide (length (shape old) = 0) && bool_decide (length (shape t) = 1)
        then match tensor_iter t with
             | Ok (first :: _) => Some first
             | _ => None
             end
        else Some t in
      match input_param with
      | Some t' => if bool_decide (shape t' = shape old) then Some t' else None
      | None => None
      end
  | VD _ => None
  end.

(** Whether the entry found for a parameter can be copied into it. *)
Definition copyable (old : tensor) (v : val) : bool :=
  bool_decide (is_Some (incoming old v)).

(** The parameters after an import: a parameter takes the value that the
    entry found under its name gives, when that entry can be copied. *)
Definition torch_loaded (ps : gmap string tensor) (sd : gmap string val)
    : gmap string tensor :=
  map_imap (fun k old =>
              match sd !! k with
              | Some v => Some (default old (incoming old v))
              | None => Some old
              end) ps.

(** The error of an import, if any: a value that cannot be copied is always
    an error; missing and unexpected keys are errors in strict mode. *)
Definition torch_load_error (ps : gmap string tensor) (sd : gmap string val)
    (strict : bool) : option exn :=
  let missing := if strict then dom ps ∖ dom sd else ∅ in
  let unexpected := if strict then dom sd ∖ dom ps else ∅ in
  let mismatched :=
    dom (map_imap (fun k old =>
                     match sd !! k with
                     | Some v => if copyable old v then None else Some old
                     | None => None
                     end) ps) in
  if bool_decide (missing = ∅ /\ unexpected = ∅ /\ mismatched = ∅) then None
  else Some (LoadError missing unexpected mismatched).

(** [sub.load_state_dict(state, strict)]: the values are copied first, the
    error is raised afterwards. *)
Definition sub_load_state_dict (who : submodule) (state : val) (strict : bool)
    : St world unit :=
  fun w =>
    match state with
    | VT _ =>
        (Raise (TypeError "Expected state_dict to be dict-like"),
         {| self := self w; dicts := dicts w;
            trace := trace w ++ [CallLoadStateDict who state ∅ strict] |})
    | VD l =>
        let sd := deref (dicts w) l in
        let ps := sub who (self w) in
        (match torch_load_error ps sd strict with
         | Some e => Raise e
         | None => Ok tt
         end,
         {| self := set_sub who (torch_loaded ps sd) (self w);
            dicts := dicts w;
            trace := trace w ++ [CallLoadStateDict who state sd strict] |})
    end.

(** *** The wrapper's methods *)

(** [AdapterWrapper.state_dict(destination, prefix, keep_vars)] *)
Definition state_dict (destination : option nat) (prefix : string)
    (keep_vars : bool) : St world nat :=
  let* destination :=
    match destination with
    | None => new_dict
    | Some d => ret d
    end in
  let* main_state_dict := sub_state_dict ToWrap (Some destination) prefix keep_vars in
  let* adapter_state_dict := sub_state_dict Adapter None prefix keep_vars in
  let* _ := dict_set destination (prefix +:+ "adapters") (VD adapter_state_dict) in
  ret main_state_dict.

(** [AdapterWrapper.load_state_dict(state_dict, strict)] *)
Definition load_state_dict (state_dict : nat) (strict : bool) : St world unit :=
  let* present := dict_contains state_dict "adapters" in
  let* adapter_state_dict :=
    (if present then dict_pop state_dict "adapters"
     else let* e := new_dict in ret (VD e)) in
  let* _ := sub_load_state_dict ToWrap (VD state_dict) strict in
  let* nonempty := truthy adapter_state_dict in
  if nonempty then sub_load_state_dict Adapter adapter_state_dict strict
  else ret tt.

(** The world after [state_dict]: [d] is the destination, [a] the new
    dictionary of the adapter. *)
Definition exported (w : world) (ds : list (gmap string val))
    (destination : option nat) (d a : nat) (prefix : string) : world :=
  {| self := self w;
     dicts := <[d := <[prefix +:+ "adapters" := VD a]>
                       (torch_export (to_wrap (self w)) prefix ∪ deref ds d)]>
                (ds ++ [torch_export (adapter (self w)) prefix]);
     trace := trace w ++ [CallStateDict ToWrap (Some d) prefix;
                          CallStateDict Adapter None prefix] |}.

(** The world once the reserved key has been popped from the dictionary
    [d]. *)
Definition popped (w : world) (d : nat) : world :=
  {| self := self w;
     dicts := <[d := delete "adapters" (deref (dicts w) d)]> (dicts w);
     trace := trace w |}.

(** The world once the sub-module [who] has imported the dictionary [l]. *)
Definition sub_imported (who : submodule) (w : world) (l : nat) (strict : bool)
    : world :=
  {| self := set_sub who (torch_loaded (sub who (self w)) (deref (dicts w) l)) (self w);
     dicts := dicts w;
     trace := trace w ++ [CallLoadStateDict who (VD l) (deref (dicts w) l) strict] |}.

(** The world with one more, empty, dictionary. *)
Definition with_new_dict (w : world) : world :=
  {| self := self w; dicts := dicts w ++ [∅]; trace := trace w |}.

Definition load_outcome (e : option exn) : outcome unit :=
  match e with
  | Some e => Raise e
  | None => Ok tt
  end.

(** Two modules have the same architecture when they have the same
    parameter names with the same shapes. *)
Definition same_architecture (ps ps' : gmap string tensor) : Prop :=
  shape <$> ps' = shape <$> ps.
End StateDict.

Arguments val tensor : clear implicits.
Arguments AdapterWrapper tensor : clear implicits.
Arguments call tensor : clear implicits.
Arguments world tensor : clear implicits.

(** The wrappers and worlds of the examples: a linear layer with its LoRA
    adapter, a freshly initialised wrapper of the same architecture, and a
    wrapper whose base module has a parameter that is itself called
    'adapters'. *)
Definition example_wrapper : AdapterWrapper toy_tensor :=
  {| to_wrap := {[ "weight" := Vector [1; 2]%Z; "bias" := Scalar 3 ]};
     adapter := {[ "linear_in.weight" := Vector [4]%Z;
                   "linear_out.weight" := Vector [5]%Z ]} |}.

Definition fresh_wrapper : AdapterWrapper toy_tensor :=
  {| to_wrap := {[ "weight" := Vector [0; 0]%Z; "bias" := Scalar 0 ]};
     adapter := {[ "linear_in.weight" := Vector [7]%Z;
                   "linear_out.weight" := Vector [0]%Z ]} |}.

Definition clashing_wrapper : AdapterWrapper toy_tensor :=
  {| to_wrap := {[ "weight" := Vector [1; 2]%Z; "adapters" := Scalar 3 ]};
     adapter := {[ "linear_in.weight" := Vector [4]%Z ]} |}.

Definition fresh_clashing_wrapper : AdapterWrapper toy_tensor :=
  {| to_wrap := {[ "weight" := Vector [0; 0]%Z; "adapters" := Scalar 0 ]};
     adapter := {[ "linear_in.weight" := Vector [7]%Z ]} |}.

Definition world_of (w : AdapterWrapper toy_tensor)
    (ds : list (gmap string (val toy_tensor))) : world toy_tensor :=
  {| self := w; dicts := ds; trace := [] |}.

(** A checkpoint of the base module only, one whose reserved key holds an
    empty dictionary, and one with a full adapter state. *)
Definition base_only_state : list (gmap string (val toy_tensor)) :=
  [ {[ "weight" := VT (Vector [1; 2]%Z); "bias" := VT (Scalar 3) ]} ].

Definition empty_adapters_state : list (gmap string (val toy_tensor)) :=
  [ {[ "weight" := VT (Vector [1; 2]%Z); "bias" := VT (Scalar 3);
       "adapters" := VD 1 ]};
    ∅ ].

Definition full_state : list (gmap string (val toy_tensor)) :=
  [ {[ "weight" := VT (Vector [1; 2]%Z); "bias" := VT (Scalar 3);
       "adapters" := VD 1 ]};
    {[ "linear_in.weight" := VT (Vector [4]%Z);
       "linear_out.weight" := VT (Vector [5]%Z) ]} ].

(** ** AdapterWrapper.sharded_state_dict (adapter/base.py) *)

Section Sharded.
Context {sharded metadata : Type}.

(** [sub.sharded_state_dict(prefix, sharded_offsets, metadata)] of a
    sub-module belongs to megatron.core: it returns a new dictionary of
    sharded tensors, here any function of the three arguments. *)
Definition sharded_method : Type :=
  string -> list (Z * Z * Z) -> option metadata -> gmap string sharded.

(** [d.update(e)]: every entry of [e] is written into [d]. *)
Definition dict_update (d e : gmap string sharded) : gmap string sharded := e ∪ d.

(** [AdapterWrapper.sharded_state_dict(prefix, sharded_offsets, metadata)] *)
Definition sharded_state_dict (to_wrap_sharded adapter_sharded : sharded_method)
    (prefix : string) (sharded_offsets : list (Z * Z * Z))
    (metadata : option metadata) : gmap string sharded :=
  let sharded_state_dict := ∅ in
  let sharded_state_dict :=
    dict_update sharded_state_dict (to_wrap_sharded prefix sharded_offsets metadata) in
  let sharded_state_dict :=
    dict_update sharded_state_dict
      (adapter_sharded (prefix +:+ "adapter.") sharded_offsets metadata) in
  sharded_state_dict.

(** What the namespacing relies on: the keys that a sub-module returns
    start with the prefix it was given. *)
Definition keys_under_prefix (f : sharded_method) : Prop :=
  forall p o md key, key ∈ dom (f p o md) -> exists k, key = p +:+ k.
End Sharded.

(** The sharded export of the examples: one entry per parameter, the value
    with the offsets it was given. *)
Definition toy_sharded (ps : gmap string toy_tensor)
    : @sharded_method (toy_tensor * list (Z * Z * Z)) unit :=
  fun prefix sharded_offsets _ =>
    kmap (String.app prefix) ((fun t => (t, sharded_offsets)) <$> ps).
(** ** Properties of the LoRA transform *)

(** Induction on modules that reaches the children of a [Module]. *)
Lemma module_children_ind (P : module -> Prop) :
  (forall i o ps cs, Forall (fun nc => P (snd nc)) cs -> P (Module i o ps cs)) ->
  (forall a ps, P (ParallelLinearAdapter a ps)) ->
  (forall b a, P b -> P a -> P (AdapterParallelAdd b a)) ->
  forall m, P m.
Proof.
  intros HM HP HW. fix IH 1. intros [i o ps cs | a ps | b a].
  - apply HM. induction cs as [| nc cs IHcs]; constructor.
    + apply IH.
    + exact IHcs.
  - apply HP.
  - apply HW; apply IH.
Qed.

Lemma bool_decide_refl {A} `{EqDecision A} (x : A) : bool_decide (x = x) = true.
Proof. apply bool_decide_eq_true_2. reflexivity. Qed.

Lemma module_beq_refl (m : module) : module_beq m m = true.
Proof.
  induction m as [i o ps cs IH | a ps | b a IHb IHa] using module_children_ind.
  - cbn [module_beq]. rewrite !bool_decide_refl. cbn [andb].
    induction IH as [| [n c] cs Hc _ IHcs]; [reflexivity |].
    cbn [list_beq fst snd] in *. rewrite bool_decide_refl, Hc. exact IHcs.
  - cbn. rewrite !bool_decide_refl. reflexivity.
  - cbn. rewrite IHb, IHa. reflexivity.
Qed.

(** A wrapper is never the module it wraps. *)
Lemma module_beq_wrapper (m a : module) : module_beq (AdapterParallelAdd m a) m = false.
Proof.
  revert a. induction m as [i o ps cs | a' ps | b IHb a' _]; intros a.
  - reflexivity.
  - reflexivity.
  - change (module_beq (AdapterParallelAdd (AdapterParallelAdd b a') a)
                       (AdapterParallelAdd b a'))
      with (module_beq (AdapterParallelAdd b a') b && module_beq a a').
    rewrite IHb. reflexivity.
Qed.

(** The three ways in which [transform] can end. *)
Lemma transform_cases (self : LoRA) (T : Z) (m : module) (n p : option string) (s : store) :
  transform self T m n p s = (Ok m, s) \/
  (exists a, transform self T m n p s =
             (Ok (AdapterParallelAdd m
                    (ParallelLinearAdapter a [("linear_in.weight", length s);
                                              ("linear_out.weight", S (length s))])),
              s ++ [true; true])) \/
  (exists e, transform self T m n p s = (Raise e, s)).
Proof.
  unfold transform. destruct (name_in n (target_modules self)); [| left; reflexivity].
  right.
  destruct m as [[i|] [o|] ps cs | a ps | b a];
    destruct (name_in n ["linear_qkv"; "linear_fc1"]); cbn;
    solve [ left; eexists; reflexivity | right; eexists; reflexivity ].
Qed.

Lemma name_in_Some (n : string) (names : list string) :
  n ∈ names -> name_in (Some n) names = true.
Proof. intros H. cbn. apply bool_decide_eq_true_2. exact H. Qed.

(** C1. Dimension symmetry: a target module with local feature counts
    [in = I], [out = O] under tensor-parallel world size [T] (any [T], so in
    particular [T >= 1]) is wrapped with an adapter constructed with
    [in_features = I], [out_features = O * T], [input_is_parallel = false]
    when its name is 'linear_qkv' or 'linear_fc1', and with
    [in_features = I * T], [out_features = O], [input_is_parallel = true]
    when its name is 'linear_proj' or 'linear_fc2'. *)
Theorem transform_parallel_dims (self : LoRA) (T I O : Z)
    (ps : list (string * ploc)) (cs : list (string * module))
    (name : string) (prefix : option string) (s : store) :
  name ∈ target_modules self ->
  let m := Module (Some I) (Some O) ps cs in
  exists a ps',
    transform self T m (Some name) prefix s =
      (Ok (AdapterParallelAdd m (ParallelLinearAdapter a ps')), s ++ [true; true]) /\
    (name = "linear_qkv" \/ name = "linear_fc1" ->
       a_in_features a = I /\ a_out_features a = (O * T)%Z /\
       a_input_is_parallel a = false) /\
    (name = "linear_proj" \/ name = "linear_fc2" ->
       a_in_features a = (I * T)%Z /\ a_out_features a = O /\
       a_input_is_parallel a = true).
Proof.
  intros Hin m. unfold transform. rewrite (name_in_Some _ _ Hin).
  destruct (name_in (Some name) ["linear_qkv"; "linear_fc1"]) eqn:E; cbn.
  - eexists _, _. split; [reflexivity |]. split.
    + intros _. cbn. auto.
    + intros [-> | ->]; vm_compute in E; discriminate E.
  - eexists _, _. split; [reflexivity |]. split.
    + intros [-> | ->]; vm_compute in E; discriminate E.
    + intros _. cbn. auto.
Qed.

Lemma transform_parallel_dims_witness :
  exists a ps',
    transform LoRA_default 4 (Module (Some 768%Z) (Some 192%Z) [("weight", 0)] [])
      (Some "linear_qkv") None [true] =
      (Ok (AdapterParallelAdd (Module (Some 768%Z) (Some 192%Z) [("weight", 0)] [])
             (ParallelLinearAdapter a ps')), [true; true; true]) /\
    a_in_features a = 768%Z /\ a_out_features a = 768%Z /\
    a_input_is_parallel a = false.
Proof.
  destruct (transform_parallel_dims LoRA_default 4 768 192 [("weight", 0)] []
              "linear_qkv" None [true])
    as (a & ps' & Hrun & Hcolumn & _).
  { apply (bool_decide_unpack _). vm_compute. exact I. }
  exists a, ps'. split; [exact Hrun |]. apply Hcolumn. left. reflexivity.
Defined.

(** C4.  What the code does where the claim asks for an error.  The else
    branch of [transform] carries the comment "name in ['linear_proj',
    'linear_fc2']" and the docstring of [LoRA] lists the four layer names as
    the possible choices, but the branch is taken by every targeted name
    that is not 'linear_qkv' or 'linear_fc1': a name of the target set that
    is none of the four recognised names raises no error, and the module is
    silently classified as row parallel ([in_features = I * T],
    [out_features = O], [input_is_parallel = true]) and wrapped. *)
Theorem transform_unrecognized_is_row_parallel (self : LoRA) (T I O : Z)
    (ps : list (string * ploc)) (cs : list (string * module))
    (name : string) (prefix : option string) (s : store) :
  name ∈ target_modules self ->
  name ∉ ["linear_qkv"; "linear_fc1"; "linear_proj"; "linear_fc2"] ->
  let m := Module (Some I) (Some O) ps cs in
  exists a ps',
    transform self T m (Some name) prefix s =
      (Ok (AdapterParallelAdd m (ParallelLinearAdapter a ps')), s ++ [true; true]) /\
    a_in_features a = (I * T)%Z /\ a_out_features a = O /\
    a_input_is_parallel a = true.
Proof.
  intros Hin Hnot m. unfold transform. rewrite (name_in_Some _ _ Hin).
  assert (E : name_in (Some name) ["linear_qkv"; "linear_fc1"] = false).
  { cbn. apply bool_decide_eq_false_2. intros H. apply Hnot.
    rewrite !elem_of_cons in *. tauto. }
  rewrite E. cbn. eexists _, _. split; [reflexivity |]. cbn. auto.
Qed.

Lemma transform_unrecognized_is_row_parallel_witness :
  exists a ps',
    transform {| target_modules := ["dense"]; dim := 8; alpha := 16; dropout := 0;
                 dropout_position := pre |} 2
      (Module (Some 8%Z) (Some 4%Z) [] []) (Some "dense") None [] =
      (Ok (AdapterParallelAdd (Module (Some 8%Z) (Some 4%Z) [] [])
             (ParallelLinearAdapter a ps')), [] ++ [true; true]) /\
    a_in_features a = (8 * 2)%Z /\ a_out_features a = 4%Z /\
    a_input_is_parallel a = true.
Proof.
  apply (transform_unrecognized_is_row_parallel
           {| target_modules := ["dense"]; dim := 8; alpha := 16; dropout := 0;
              dropout_position := pre |} 2 8 4 [] [] "dense" None []).
  - apply (bool_decide_unpack _). vm_compute. exact I.
  - apply (bool_decide_unpack _). vm_compute. exact I.
Defined.

(** C4 at a concrete input: with target set ['dense'] the module named
    'dense' is in the target set and is none of the four recognised names,
    yet the transform raises nothing and returns a wrapper whose adapter is
    built for a row-parallel layer, against the comment of the branch that
    builds it. *)
Lemma transform_unrecognized_counterexample :
  let self := {| target_modules := ["dense"]; dim := 8; alpha := 16; dropout := 0;
                 dropout_position := pre |} in
  let m := Module (Some 8%Z) (Some 4%Z) [] [] in
  ("dense" ∈ target_modules self) /\
  ("dense" ∉ ["linear_qkv"; "linear_fc1"; "linear_proj"; "linear_fc2"]) /\
  (forall e s', transform self 2 m (Some "dense") None [] <> (Raise e, s')) /\
  transform self 2 m (Some "dense") None [] =
    (Ok (AdapterParallelAdd m
           (ParallelLinearAdapter
              {| a_in_features := 16; a_out_features := 4; a_dim := 8;
                 a_activation := "identity"; a_norm_position := None;
                 a_norm_type := None; a_column_init_method := "normal";
                 a_row_init_method := "zero"; a_gather_output := false;
                 a_input_is_parallel := true; a_dropout := 0;
                 a_dropout_position := pre; a_alpha := 16 |}
              [("linear_in.weight", 0); ("linear_out.weight", 1)])),
     [true; true]).
Proof.
  cbn zeta. split; [| split; [| split]].
  - apply (bool_decide_unpack _). vm_compute. exact I.
  - apply (bool_decide_unpack _). vm_compute. exact I.
  - intros e s'. vm_compute. discriminate.
  - vm_compute. reflexivity.
Qed.

(** C8, as the code has it: applied to a module that is already an
    [AdapterWrapper], the transform is a no-op when the name is not in the
    target set, and otherwise fails with AttributeError on [in_features],
    which a wrapper does not have; in neither case is a wrapper of a wrapper
    produced. *)
Theorem transform_wrapped_module (self : LoRA) (T : Z) (b a : module)
    (name prefix : option string) (s : store) :
  let w := AdapterParallelAdd b a in
  ((name_in name (target_modules self) = false /\
    transform self T w name prefix s = (Ok w, s)) \/
   (name_in name (target_modules self) = true /\
    transform self T w name prefix s = (Raise (AttributeError "in_features"), s))) /\
  (forall a' s', transform self T w name prefix s <> (Ok (AdapterParallelAdd w a'), s')).
Proof.
  intros w. unfold transform.
  destruct (name_in name (target_modules self)).
  - destruct (name_in name ["linear_qkv"; "linear_fc1"]); cbn;
      (split; [right; split; reflexivity | intros a' s'; discriminate]).
  - split; [left; split; reflexivity |].
    intros a' s'. unfold ret. intros H.
    assert (Hw : b = w) by (injection H; auto).
    pose proof (module_beq_wrapper b a) as Hb. fold w in Hb.
    rewrite <- Hw, module_beq_refl in Hb. discriminate Hb.
Qed.

(** C8, as stated, fails: the second application to the wrapper named
    'linear_qkv' is not a no-op, and the error it raises is an AttributeError,
    not a DoubleWrapError. *)
Lemma transform_wrapped_counterexample :
  let w := AdapterParallelAdd (Module (Some 768%Z) (Some 192%Z) [("weight", 0)] [])
             (ParallelLinearAdapter
                {| a_in_features := 768; a_out_features := 768; a_dim := 32;
                   a_activation := "identity"; a_norm_position := None;
                   a_norm_type := None; a_column_init_method := "normal";
                   a_row_init_method := "zero"; a_gather_output := false;
                   a_input_is_parallel := false; a_dropout := 0;
                   a_dropout_position := post; a_alpha := 32 |}
                [("linear_in.weight", 1); ("linear_out.weight", 2)]) in
  let s := [false; true; true] in
  let r := transform LoRA_default 4 w (Some "linear_qkv") None s in
  ~ (r = (Ok w, s) \/
     exists e s', r = (Raise e, s') /\ py_class e = "DoubleWrapError").
Proof.
  cbn zeta. intros [H | (e & s' & H & Hc)].
  - vm_compute in H. discriminate H.
  - vm_compute in H. injection H as <- _. vm_compute in Hc. discriminate Hc.
Qed.

(** ** Freeze and walk *)

Lemma bind_Ok_inv {S A B} (c : St S A) (k : A -> St S B) (s s' : S) (b : B) :
  bind c k s = (Ok b, s') ->
  exists a s1, c s = (Ok a, s1) /\ k a s1 = (Ok b, s').
Proof.
  unfold bind. destruct (c s) as [[a | e] s1]; intros H.
  - exists a, s1. auto.
  - discriminate H.
Qed.

Lemma walk_unfold wrap_fn (m : module) (name prefix : option string) :
  walk wrap_fn m name prefix =
  (let* r := wrap_fn m name prefix in
   if module_beq r m then
     match m with
     | Module i o ps cs =>
         let* cs' :=
           mapM (fun nc =>
                   let* c' := walk wrap_fn (snd nc) (Some (fst nc))
                                (child_prefix prefix name) in
                   ret (fst nc, c')) cs in
         ret (Module i o ps cs')
     | ParallelLinearAdapter _ _ => ret m
     | AdapterParallelAdd b a =>
         let* b' := walk wrap_fn b (Some "to_wrap") (child_prefix prefix name) in
         let* a' := walk wrap_fn a (Some "adapter") (child_prefix prefix name) in
         ret (AdapterParallelAdd b' a')
     end
   else ret r).
Proof. destruct m; reflexivity. Qed.

(** Freezing keeps the size of the store and clears the flag of every
    parameter of the model. *)
Lemma freeze_length (m : module) (s s1 : store) :
  freeze m s = (Ok tt, s1) -> length s1 = length s.
Proof.
  unfold freeze. intros H. injection H as <-.
  induction (params_of m) as [| l ls IH]; cbn [foldr]; [reflexivity |].
  rewrite length_insert. exact IH.
Qed.

Lemma freeze_frozen (m : module) (s s1 : store) (l : ploc) :
  freeze m s = (Ok tt, s1) ->
  l ∈ params_of m -> l < length s -> s1 !! l = Some false.
Proof.
  unfold freeze. intros H. injection H as <-.
  induction (params_of m) as [| l' ls IH]; cbn [foldr]; intros Hl Hlt.
  - inversion Hl.
  - destruct (decide (l' = l)) as [-> | Hne].
    + apply list_lookup_insert_eq.
      clear IH Hl. induction ls as [| x xs IHxs]; cbn [foldr]; [exact Hlt |].
      rewrite length_insert. exact IHxs.
    + rewrite list_lookup_insert_ne by exact Hne.
      apply IH; [| exact Hlt].
      apply elem_of_cons in Hl as [-> | Hl]; [congruence | exact Hl].
Qed.

Lemma bind_inv {S A B} (c : St S A) (k : A -> St S B) (s s' : S) (r : outcome B) :
  bind c k s = (r, s') ->
  (exists a s1, c s = (Ok a, s1) /\ k a s1 = (r, s')) \/
  (exists e, c s = (Raise e, s') /\ r = Raise e).
Proof.
  unfold bind. destruct (c s) as [[a | e] s1]; intros H.
  - left. exists a, s1. auto.
  - right. injection H as <- <-. exists e. auto.
Qed.

(** What a walk does when the policy either keeps a module or wraps it with
    an adapter whose parameters are freshly allocated and trainable. *)
Section Walk.
Variable wrap_fn : module -> option string -> option string -> St store module.
Hypothesis wrap_fn_fresh : wraps_with_fresh_adapter wrap_fn.

Lemma walk_post_seq (s : store) (k1 k2 : nat) :
  seq (length s) k1 ++ seq (length (s ++ replicate k1 true)) k2 =
  seq (length s) (k1 + k2).
Proof.
  rewrite length_app, length_replicate, seq_app. reflexivity.
Qed.

Lemma walk_post_raise (m : module) (s : store) (k : nat) (e : exn) :
  walk_post m s (Raise e) (s ++ replicate k true).
Proof. exists k. split; [reflexivity |]. intros m' E. discriminate E. Qed.

Lemma walk_children_post (prefix : option string) (cs : list (string * module)) :
  Forall (fun nc => forall n p s r s',
            walk wrap_fn (snd nc) n p s = (r, s') -> walk_post (snd nc) s r s') cs ->
  forall s r s',
    mapM (fun nc =>
            let* c' := walk wrap_fn (snd nc) (Some (fst nc)) prefix in
            ret (fst nc, c')) cs s = (r, s') ->
    exists k, s' = s ++ replicate k true /\
      forall cs', r = Ok cs' ->
        flat_map (fun nc => params_of (snd nc)) cs' ≡ₚ
          flat_map (fun nc => params_of (snd nc)) cs ++ seq (length s) k /\
        flat_map (fun nc => adapter_params_of (snd nc)) cs' ≡ₚ
          flat_map (fun nc => adapter_params_of (snd nc)) cs ++ seq (length s) k.
Proof.
  induction 1 as [| [n c] cs Hc _ IH]; intros s r s' H.
  - cbn in H. injection H as <- <-. exists 0. cbn.
    rewrite app_nil_r. split; [reflexivity |].
    intros cs' E. injection E as <-. cbn. auto.
  - cbn [mapM] in H.
    apply bind_inv in H as [(nc' & s1 & H1 & H) | (e & H1 & ->)].
    + apply bind_Ok_inv in H1 as (c' & s1' & Hw & H1).
      injection H1 as <- <-.
      apply Hc in Hw as (k1 & -> & Hc').
      destruct (Hc' c' eq_refl) as [Hp1 Ha1].
      apply bind_inv in H as [(rest' & s2 & Hrest & H) | (e & Hrest & ->)].
      * injection H as <- <-.
        apply IH in Hrest as (k2 & -> & Hrest').
        destruct (Hrest' rest' eq_refl) as [Hp2 Ha2].
        exists (k1 + k2). split.
        { rewrite <- app_assoc, <- replicate_add. reflexivity. }
        intros cs' E. injection E as <-. cbn [flat_map fst snd] in *.
        rewrite <- walk_post_seq, Hp1, Hp2, Ha1, Ha2.
        split; solve_Permutation.
      * apply IH in Hrest as (k2 & -> & _).
        exists (k1 + k2). split.
        { rewrite <- app_assoc, <- replicate_add. reflexivity. }
        intros cs' E. discriminate E.
    + apply bind_inv in H1 as [(c' & s1' & Hw & H1) | (e' & Hw & _)].
      * discriminate H1.
      * apply Hc in Hw as (k1 & -> & _). exists k1.
        split; [reflexivity |]. intros cs' E. discriminate E.
Qed.

Lemma walk_spec (m : module) :
  forall n p s r s',
    walk wrap_fn m n p s = (r, s') -> walk_post m s r s'.
Proof.
  induction m as [i o ps cs IH | a ps | b a IHb IHa] using module_children_ind;
    intros n p s r s' H; rewrite walk_unfold in H;
    (apply bind_inv in H as [(r0 & s1 & Hr & H) | (e & Hr & ->)];
     [| apply wrap_fn_fresh in Hr as ->;
        rewrite <- (app_nil_r s) at 2; apply (walk_post_raise _ s 0)]);
    apply wrap_fn_fresh in Hr as [[-> ->] | (a0 & k & -> & -> & Hfresh)];
    try (rewrite module_beq_wrapper in H; injection H as <- <-;
         exists k; split; [reflexivity |];
         intros m' E; injection E as <-;
         cbn [params_of adapter_params_of]; rewrite Hfresh;
         split; solve_Permutation);
    rewrite module_beq_refl in H.
  - apply bind_inv in H as [(cs' & s2 & Hcs & H) | (e & Hcs & ->)].
    + injection H as <- <-.
      apply (walk_children_post _ _ IH) in Hcs as (k & -> & Hcs').
      destruct (Hcs' cs' eq_refl) as [Hp Ha].
      exists k. split; [reflexivity |]. intros m' E. injection E as <-.
      cbn [params_of adapter_params_of]. rewrite Hp, Ha.
      split; solve_Permutation.
    + apply (walk_children_post _ _ IH) in Hcs as (k & -> & _).
      apply walk_post_raise.
  - injection H as <- <-. exists 0. cbn. rewrite !app_nil_r.
    split; [reflexivity |]. intros m' E. injection E as <-. auto.
  - apply bind_inv in H as [(b' & s2 & Hb & H) | (e & Hb & ->)].
    + apply IHb in Hb as (k1 & -> & Hb').
      destruct (Hb' b' eq_refl) as [Hpb Hab].
      apply bind_inv in H as [(a' & s3 & Ha & H) | (e & Ha & ->)].
      * injection H as <- <-.
        apply IHa in Ha as (k2 & -> & Ha').
        destruct (Ha' a' eq_refl) as [Hpa Haa].
        exists (k1 + k2). split.
        { rewrite <- app_assoc, <- replicate_add. reflexivity. }
        intros m' E. injection E as <-. cbn [params_of adapter_params_of].
        rewrite <- walk_post_seq, Hpb, Hab, Hpa.
        split; solve_Permutation.
      * apply IHa in Ha as (k2 & -> & _).
        rewrite <- app_assoc, <- replicate_add. apply walk_post_raise.
    + apply IHb in Hb as (k1 & -> & _). apply walk_post_raise.
Qed.
End Walk.

Lemma transform_wraps_with_fresh_adapter (self : LoRA) (T : Z) :
  wraps_with_fresh_adapter (transform self T).
Proof.
  intros m n p s r s' H.
  destruct (transform_cases self T m n p s) as [E | [(a & E) | (e & E)]];
    rewrite E in H; injection H as <- <-.
  - left. auto.
  - right. exists (ParallelLinearAdapter a
      [("linear_in.weight", length s); ("linear_out.weight", S (length s))]), 2.
    auto.
  - reflexivity.
Qed.

Lemma filter_none {A} (P : A -> Prop) `{!forall x, Decision (P x)} (l : list A) :
  (forall x, x ∈ l -> ~ P x) -> filter P l = [].
Proof.
  induction l as [| x l IH]; intros Hl; [reflexivity |].
  rewrite filter_cons_False by (apply Hl; left).
  apply IH. intros y Hy. apply Hl. right. exact Hy.
Qed.

Lemma filter_all {A} (P : A -> Prop) `{!forall x, Decision (P x)} (l : list A) :
  (forall x, x ∈ l -> P x) -> filter P l = l.
Proof.
  induction l as [| x l IH]; intros Hl; [reflexivity |].
  rewrite filter_cons_True by (apply Hl; left).
  f_equal. apply IH. intros y Hy. apply Hl. right. exact Hy.
Qed.

(** C2. Freeze invariant.  On a model whose parameters are all allocated,
    [model_fn] freezes the model before the walk starts: the walk runs on the
    store in which every parameter of the model is non-trainable.  However
    the walk ends, every parameter that existed before is non-trainable
    afterwards.  When the walk completes, the resulting model still owns
    those parameters, and one of its parameters is trainable exactly when it
    did not exist before; such a parameter was allocated by the construction
    of an adapter and belongs to the adapter of a wrapper.  Conversely every
    parameter allocated during the run is trainable and belongs to the
    adapter of a wrapper of the resulting model: the trainable parameters of
    the resulting model are, one for one, the parameters that the
    construction of the adapters has allocated. *)
Theorem peft_freeze_invariant (self : LoRA) (T : Z) (m : module) (s : store)
    (r : outcome module) (s' : store) :
  Forall (fun l => l < length s) (params_of m) ->
  peft_model_transform (transform self T) m s = (r, s') ->
  (exists s1,
     freeze m s = (Ok tt, s1) /\
     (forall l, l ∈ params_of m -> s1 !! l = Some false) /\
     walk (transform self T) m None None s1 = (r, s')) /\
  (forall l, l ∈ params_of m -> s' !! l = Some false) /\
  (forall m', r = Ok m' ->
     (forall l, l ∈ params_of m -> l ∈ params_of m') /\
     (forall l, l ∈ params_of m' ->
        (s' !! l = Some true <-> l ∉ params_of m) /\
        (l ∉ params_of m -> length s <= l /\ l ∈ adapter_params_of m')) /\
     (forall l, length s <= l < length s' ->
        s' !! l = Some true /\ l ∈ adapter_params_of m' /\ l ∈ params_of m') /\
     (filter (fun l => s' !! l = Some true) (params_of m') ≡ₚ
        seq (length s) (length s' - length s))).
Proof.
  intros Hwf H. unfold peft_model_transform in H.
  apply bind_inv in H as [([] & s1 & Hf & Hw) | (e & Hf & _)];
    [| discriminate Hf].
  pose proof (freeze_length _ _ _ Hf) as Hlen.
  assert (Hfrozen : forall l, l ∈ params_of m -> s1 !! l = Some false).
  { intros l Hl. apply (freeze_frozen m s s1 l Hf Hl).
    rewrite Forall_forall in Hwf. apply Hwf, Hl. }
  pose proof (walk_spec _ (transform_wraps_with_fresh_adapter self T) _ _ _ _ _ _ Hw)
    as (k & -> & Hpost).
  rewrite Forall_forall in Hwf.
  assert (Hold : forall l, l ∈ params_of m -> (s1 ++ replicate k true) !! l = Some false).
  { intros l Hl. rewrite lookup_app_l by (rewrite Hlen; apply Hwf, Hl).
    apply Hfrozen, Hl. }
  assert (Hnew : forall l, length s <= l < length s + k ->
                           (s1 ++ replicate k true) !! l = Some true).
  { intros l Hl. rewrite lookup_app_r by lia. apply lookup_replicate_2. lia. }
  assert (Hgrow : length (s1 ++ replicate k true) - length s = k).
  { rewrite length_app, length_replicate. lia. }
  split; [exists s1; auto |]. split; [exact Hold |].
  intros m' ->. destruct (Hpost m' eq_refl) as [Hp Ha].
  rewrite Hlen in Hp, Ha. split; [| split; [| split]].
  - intros l Hl. rewrite Hp. apply elem_of_app. left. exact Hl.
  - intros l Hl. rewrite Hp in Hl. apply elem_of_app in Hl as [Hl | Hl].
    + split.
      * rewrite (Hold l Hl). split; [discriminate | intros Hn; destruct (Hn Hl)].
      * intros Hn. destruct (Hn Hl).
    + apply elem_of_seq in Hl as [Hge Hlt].
      assert (Hfresh : l ∉ params_of m).
      { intros Hl. apply Hwf in Hl. lia. }
      split.
      * split; [intros _; exact Hfresh | intros _]. apply Hnew. lia.
      * intros _. split; [lia |]. rewrite Ha. apply elem_of_app. right.
        apply elem_of_seq. lia.
  - intros l Hl. rewrite length_app, length_replicate in Hl.
    split; [apply Hnew; lia |]. rewrite Ha, Hp.
    split; apply elem_of_app; right; apply elem_of_seq; lia.
  - rewrite Hgrow, Hp, filter_app.
    rewrite filter_none, filter_all; [reflexivity | |].
    + intros l Hl. apply elem_of_seq in Hl. apply Hnew. lia.
    + intros l Hl. rewrite (Hold l Hl). discriminate.
Qed.

Lemma peft_freeze_invariant_witness :
  exists m' s',
    peft_model_transform (transform LoRA_default 4) example_model
      [true; true; false; true; true] = (Ok m', s') /\
    (forall l, l ∈ params_of example_model ->
       l ∈ params_of m' /\ s' !! l = Some false) /\
    (forall l, l ∈ params_of m' ->
       (s' !! l = Some true <-> l ∉ params_of example_model) /\
       (l ∉ params_of example_model -> 5 <= l /\ l ∈ adapter_params_of m')) /\
    (forall l, 5 <= l < 9 ->
       s' !! l = Some true /\ l ∈ adapter_params_of m' /\ l ∈ params_of m') /\
    (filter (fun l => s' !! l = Some true) (params_of m') ≡ₚ [5; 6; 7; 8]) /\
    s' = [false; false; false; false; false; true; true; true; true].
Proof.
  destruct (peft_model_transform (transform LoRA_default 4) example_model
              [true; true; false; true; true]) as [r s'] eqn:E.
  assert (Hwf : Forall (fun l => l < length [true; true; false; true; true])
                  (params_of example_model)).
  { apply (bool_decide_unpack _). vm_compute. exact I. }
  pose proof (peft_freeze_invariant LoRA_default 4 example_model _ _ _ Hwf E)
    as (_ & Hold & Hnew).
  vm_compute in E. injection E as <- <-.
  destruct (Hnew _ eq_refl) as (Hkeep & Htrain & Halloc & Hexact).
  eexists _, _. split; [reflexivity |]. split; [| split; [| split; [| split]]].
  - intros l Hl. split; [apply Hkeep, Hl | apply Hold, Hl].
  - exact Htrain.
  - exact Halloc.
  - exact Hexact.
  - reflexivity.
Defined.

(** ** Applying the policy a second time *)

Lemma bind_Ok {S A B} (c : St S A) (k : A -> St S B) (s s1 : S) (a : A) :
  c s = (Ok a, s1) -> bind c k s = k a s1.
Proof. intros E. unfold bind. rewrite E. reflexivity. Qed.

Lemma bind_Raise {S A B} (c : St S A) (k : A -> St S B) (s s1 : S) (e : exn) :
  c s = (Raise e, s1) -> bind c k s = (Raise e, s1).
Proof. intros E. unfold bind. rewrite E. reflexivity. Qed.

Lemma transform_not_target (self : LoRA) (T : Z) (m : module) (n p : option string)
    (s : store) :
  name_in n (target_modules self) = false ->
  transform self T m n p s = (Ok m, s).
Proof. intros E. unfold transform. rewrite E. reflexivity. Qed.

Lemma transform_target (self : LoRA) (T : Z) (m : module) (n p : option string)
    (s : store) (r : module) (s' : store) :
  name_in n (target_modules self) = true ->
  transform self T m n p s = (Ok r, s') ->
  exists a, r = AdapterParallelAdd m a.
Proof.
  intros E. unfold transform. rewrite E.
  destruct m as [[i |] [o |] ps cs | a ps | b a];
    destruct (name_in n ["linear_qkv"; "linear_fc1"]); cbn; intros H;
    try discriminate H; injection H as <- _; eauto.
Qed.

Lemma transform_target_wrapper (self : LoRA) (T : Z) (b a : module)
    (n p : option string) (s : store) :
  name_in n (target_modules self) = true ->
  transform self T (AdapterParallelAdd b a) n p s =
    (Raise (AttributeError "in_features"), s).
Proof.
  intros E. unfold transform. rewrite E.
  destruct (name_in n ["linear_qkv"; "linear_fc1"]); reflexivity.
Qed.

Lemma rewalk_children (self : LoRA) (T : Z) (cs : list (string * module)) :
  Forall (fun nc => forall n p s m1 s1,
            wrapper_free (snd nc) = true ->
            walk (transform self T) (snd nc) n p s = (Ok m1, s1) ->
            rewalk_post self T m1 n) cs ->
  forallb (fun nc => wrapper_free (snd nc)) cs = true ->
  forall p s cs1 s1,
    mapM (fun nc =>
            let* c' := walk (transform self T) (snd nc) (Some (fst nc)) p in
            ret (fst nc, c')) cs s = (Ok cs1, s1) ->
    forall p' s2,
      let again :=
        mapM (fun nc =>
                let* c' := walk (transform self T) (snd nc) (Some (fst nc)) p' in
                ret (fst nc, c')) cs1 s2 in
      again = (Ok cs1, s2) \/ again = (Raise (AttributeError "in_features"), s2).
Proof.
  induction 1 as [| [n c] cs Hc _ IH]; intros Hfree p s cs1 s1 H p' s2.
  - cbn in H. injection H as <- <-. left. reflexivity.
  - cbn [forallb snd] in Hfree. apply andb_true_iff in Hfree as [Hfc Hfcs].
    cbn [mapM] in H.
    apply bind_Ok_inv in H as (nc' & s' & H1 & H).
    apply bind_Ok_inv in H1 as (c' & s'' & Hw & H1). injection H1 as <- <-.
    apply bind_Ok_inv in H as (rest' & s3 & Hrest & H). injection H as <- <-.
    cbn [fst snd] in *.
    specialize (Hc _ _ _ _ _ Hfc Hw p' s2).
    specialize (IH Hfcs _ _ _ _ Hrest p' s2).
    cbn zeta in *. cbn [mapM fst snd].
    destruct Hc as [Hc | Hc].
    + rewrite (bind_Ok _ _ s2 s2 (n, c')) by (rewrite (bind_Ok _ _ _ _ _ Hc); reflexivity).
      destruct IH as [IH | IH].
      * left. rewrite (bind_Ok _ _ _ _ _ IH). reflexivity.
      * right. apply bind_Raise, IH.
    + right. apply bind_Raise, bind_Raise, Hc.
Qed.

Lemma rewalk (self : LoRA) (T : Z) (m : module) :
  forall n p s m1 s1,
    wrapper_free m = true ->
    walk (transform self T) m n p s = (Ok m1, s1) ->
    rewalk_post self T m1 n.
Proof.
  induction m as [i o ps cs IH | a ps | b a IHb IHa] using module_children_ind;
    intros n p s m1 s1 Hfree H p' s2; [| | discriminate Hfree];
    rewrite walk_unfold in H;
    apply bind_Ok_inv in H as (r & s' & Hr & H);
    (destruct (name_in n (target_modules self)) eqn:En;
     [ destruct (transform_target _ _ _ _ _ _ _ _ En Hr) as [a0 ->];
       rewrite module_beq_wrapper in H; injection H as <- <-;
       right; rewrite walk_unfold;
       apply bind_Raise, transform_target_wrapper, En
     | rewrite (transform_not_target _ _ _ _ _ _ En) in Hr; injection Hr as <- <-;
       rewrite module_beq_refl in H ]).
  - apply bind_Ok_inv in H as (cs1 & s3 & Hcs & H). injection H as <- <-.
    cbn [wrapper_free] in Hfree.
    pose proof (rewalk_children self T cs IH Hfree _ _ _ _ Hcs
                  (child_prefix p' n) s2) as Hagain.
    cbn zeta in Hagain.
    rewrite walk_unfold.
    rewrite (bind_Ok _ _ _ _ _ (transform_not_target _ _ _ _ _ _ En)), module_beq_refl.
    destruct Hagain as [Hagain | Hagain].
    + left. rewrite (bind_Ok _ _ _ _ _ Hagain). reflexivity.
    + right. apply bind_Raise, Hagain.
  - injection H as <- <-. left. rewrite walk_unfold.
    rewrite (bind_Ok _ _ _ _ _ (transform_not_target _ _ _ _ _ _ En)), module_beq_refl.
    reflexivity.
Qed.

(** On a model without wrappers, a second [model_fn] with the same policy
    either leaves the model as the first one made it or raises
    AttributeError; it never wraps a wrapper. *)
Lemma peft_apply_twice (self : LoRA) (T : Z) (m m1 : module) (s s1 s2 : store) :
  wrapper_free m = true ->
  peft_model_transform (transform self T) m s = (Ok m1, s1) ->
  exists s3,
    peft_model_transform (transform self T) m1 s2 = (Ok m1, s3) \/
    peft_model_transform (transform self T) m1 s2 =
      (Raise (AttributeError "in_features"), s3).
Proof.
  intros Hfree H. unfold peft_model_transform in *.
  apply bind_Ok_inv in H as ([] & s' & _ & Hw).
  set (s3 := foldr (fun l s0 => <[l := false]> s0) s2 (params_of m1)).
  exists s3.
  rewrite (bind_Ok (freeze m1) _ s2 s3 tt) by reflexivity.
  apply (rewalk self T m _ _ _ _ _ Hfree Hw).
Qed.

(** ** The forward pass of a wrapper *)

Section ForwardProperties.
Context {tensor : Type} `{Torch tensor} {S : Type}.
Implicit Types (x bias ln primary : pyval tensor) (lo d t : tensor) (s : S).

(** C3, as the code has it.  [forward] calls the base module on [x]; the
    result has to unpack into exactly two values, the primary output and
    the bias.  When the primary output is a tensor the adapter is called on
    [x]; when it is a pair (linear output, layer-norm output) the adapter is
    called on the layer-norm output.  The result is the linear output plus
    the adapter's output, paired with the bias unchanged; when that sum
    raises (the two shapes do not broadcast), [forward] raises the same
    exception, after both modules have run.  A base result made of a
    primary output alone (a 1-tuple, or a bare tensor that does not split
    into two) makes [forward] raise. *)
Theorem forward_spec (to_wrap_call adapter_call : pyval tensor -> St S (pyval tensor))
    x s s1 s2 lo d bias ln :
  (to_wrap_call x s = (Ok (PTuple [PTensor lo; bias]), s1) ->
   adapter_call x s1 = (Ok (PTensor d), s2) ->
   forward to_wrap_call adapter_call x s =
     (match tensor_add lo d with
      | Ok sum => Ok (PTuple [PTensor sum; bias])
      | Raise e => Raise e
      end, s2)) /\
  (to_wrap_call x s = (Ok (PTuple [PTuple [PTensor lo; ln]; bias]), s1) ->
   adapter_call ln s1 = (Ok (PTensor d), s2) ->
   forward to_wrap_call adapter_call x s =
     (match tensor_add lo d with
      | Ok sum => Ok (PTuple [PTensor sum; bias])
      | Raise e => Raise e
      end, s2)) /\
  (forall primary,
     to_wrap_call x s = (Ok (PTuple [primary]), s1) ->
     forward to_wrap_call adapter_call x s =
       (Raise (ValueError "not enough values to unpack"), s1)) /\
  (forall t,
     to_wrap_call x s = (Ok (PTensor t), s1) ->
     (forall a b, tensor_iter t <> Ok [a; b]) ->
     exists e, forward to_wrap_call adapter_call x s = (Raise e, s1)).
Proof.
  unfold forward, bind. repeat split.
  - intros -> Ha. cbn. rewrite Ha. cbn.
    destruct (tensor_add lo d); reflexivity.
  - intros -> Ha. cbn. rewrite Ha. cbn.
    destruct (tensor_add lo d); reflexivity.
  - intros primary ->. reflexivity.
  - intros t -> Hiter. cbn.
    destruct (tensor_iter t) as [[| a [| b [| c ts]]] | e]; cbn; eauto.
    destruct (Hiter a b). reflexivity.
Qed.
End ForwardProperties.

Lemma forward_spec_witness :
  forward (S := unit) (fun _ => ret (PTuple [PTensor (Vector [1; 2]%Z); PNone]))
    (fun v => ret v) (PTensor (Vector [10; 20]%Z)) tt =
    (Ok (PTuple [PTensor (Vector [11; 22]%Z); PNone]), tt) /\
  forward (S := unit)
    (fun _ => ret (PTuple [PTuple [PTensor (Vector [1; 2]%Z); PTensor (Scalar 7)];
                           PTensor (Scalar 5)]))
    (fun v => ret v) (PTensor (Vector [10; 20]%Z)) tt =
    (Ok (PTuple [PTensor (Vector [8; 9]%Z); PTensor (Scalar 5)]), tt) /\
  forward (S := unit) (fun _ => ret (PTuple [PTensor (Vector [1; 2]%Z); PNone]))
    (fun v => ret v) (PTensor (Vector [10; 20; 30]%Z)) tt =
    (Raise BroadcastError, tt) /\
  forward (S := unit) (fun _ => ret (PTuple [PTensor (Vector [1; 2]%Z)]))
    (fun v => ret v) (PTensor (Vector [10; 20]%Z)) tt =
    (Raise (ValueError "not enough values to unpack"), tt) /\
  (exists e,
     forward (S := unit) (fun _ => ret (PTensor (Vector [1; 2; 3]%Z)))
       (fun v => ret v) (PTensor (Vector [10; 20]%Z)) tt = (Raise e, tt)).
Proof.
  split; [| split; [| split; [| split]]].
  - pose proof (forward_spec (S := unit)
             (fun _ => ret (PTuple [PTensor (Vector [1; 2]%Z); PNone])) (fun v => ret v)
             (PTensor (Vector [10; 20]%Z)) tt tt tt
             (Vector [1; 2]%Z) (Vector [10; 20]%Z) PNone PNone) as (Hp & _).
    exact (Hp eq_refl eq_refl).
  - pose proof (forward_spec (S := unit)
             (fun _ => ret (PTuple [PTuple [PTensor (Vector [1; 2]%Z); PTensor (Scalar 7)];
                                    PTensor (Scalar 5)]))
             (fun v => ret v)
             (PTensor (Vector [10; 20]%Z)) tt tt tt
             (Vector [1; 2]%Z) (Scalar 7) (PTensor (Scalar 5)) (PTensor (Scalar 7)))
      as (_ & Hp & _).
    exact (Hp eq_refl eq_refl).
  - pose proof (forward_spec (S := unit)
             (fun _ => ret (PTuple [PTensor (Vector [1; 2]%Z); PNone])) (fun v => ret v)
             (PTensor (Vector [10; 20; 30]%Z)) tt tt tt
             (Vector [1; 2]%Z) (Vector [10; 20; 30]%Z) PNone PNone) as (Hp & _).
    exact (Hp eq_refl eq_refl).
  - pose proof (forward_spec (S := unit)
             (fun _ => ret (PTuple [PTensor (Vector [1; 2]%Z)])) (fun v => ret v)
             (PTensor (Vector [10; 20]%Z)) tt tt tt
             (Scalar 0) (Scalar 0) PNone PNone) as (_ & _ & Hp & _).
    exact (Hp (PTensor (Vector [1; 2]%Z)) eq_refl).
  - pose proof (forward_spec (S := unit)
             (fun _ => ret (PTensor (Vector [1; 2; 3]%Z))) (fun v => ret v)
             (PTensor (Vector [10; 20]%Z)) tt tt tt
             (Scalar 0) (Scalar 0) PNone PNone) as (_ & _ & _ & Hp).
    apply (Hp (Vector [1; 2; 3]%Z) eq_refl).
    intros a b. vm_compute. discriminate.
Defined.

(** C3, as stated, fails: a base module that returns its primary output
    alone, whether as a bare tensor or as a 1-tuple, does not get the
    adapter's output added; [forward] raises while unpacking. *)
Lemma forward_primary_alone_counterexample :
  forward (S := unit) (fun _ => ret (PTensor (Vector [1; 2; 3]%Z)))
    (fun v => ret v) (PTensor (Vector [10; 20; 30]%Z)) tt =
    (Raise (ValueError "too many values to unpack"), tt) /\
  forward (S := unit) (fun _ => ret (PTensor (Scalar 1)))
    (fun v => ret v) (PTensor (Scalar 10)) tt =
    (Raise (TypeError "iteration over a 0-d tensor"), tt) /\
  forward (S := unit) (fun _ => ret (PTuple [PTensor (Vector [1; 2; 3]%Z)]))
    (fun v => ret v) (PTensor (Vector [10; 20; 30]%Z)) tt =
    (Raise (ValueError "not enough values to unpack"), tt).
Proof. repeat split. Qed.

(** ** Export and import of a wrapper's state *)

Section StateDictProperties.
Context {tensor : Type} `{Torch tensor}.
Implicit Types (w : world tensor) (ds : list (gmap string (val tensor)))
  (ps : gmap string tensor) (sd : gmap string (val tensor)) (v : val tensor).

(** *** Dictionary objects *)

Lemma deref_lookup_lt ds l k v : deref ds l !! k = Some v -> l < length ds.
Proof.
  unfold deref. destruct (ds !! l) as [d |] eqn:E; cbn.
  - intros _. eapply lookup_lt_Some, E.
  - rewrite lookup_empty. discriminate.
Qed.

Lemma deref_insert_eq ds l d : l < length ds -> deref (<[l := d]> ds) l = d.
Proof. intros Hl. unfold deref. rewrite list_lookup_insert_eq by exact Hl. reflexivity. Qed.

Lemma deref_insert_ne ds l l' d : l <> l' -> deref (<[l := d]> ds) l' = deref ds l'.
Proof. intros Hl. unfold deref. rewrite list_lookup_insert_ne by exact Hl. reflexivity. Qed.

Lemma deref_app_empty ds l : deref (ds ++ [∅]) l = deref ds l.
Proof.
  unfold deref. destruct (decide (l < length ds)) as [Hl | Hl].
  - rewrite lookup_app_l by exact Hl. reflexivity.
  - rewrite lookup_app_r by lia. rewrite (lookup_ge_None_2 ds) by lia.
    destruct (l - length ds) as [| n]; reflexivity.
Qed.

Lemma deref_app_l ds ds' l : l < length ds -> deref (ds ++ ds') l = deref ds l.
Proof. intros Hl. unfold deref. rewrite lookup_app_l by exact Hl. reflexivity. Qed.

Lemma deref_app_new ds d : deref (ds ++ [d]) (length ds) = d.
Proof.
  unfold deref. rewrite lookup_app_r by lia. rewrite Nat.sub_diag. reflexivity.
Qed.

(** *** The sub-modules' export *)

Lemma torch_export_lookup ps prefix k :
  torch_export ps prefix !! (prefix +:+ k) = VT <$> ps !! k.
Proof.
  unfold torch_export. rewrite (lookup_kmap (String.app prefix)).
  apply lookup_fmap.
Qed.

Lemma torch_export_lookup_Some ps prefix key v :
  torch_export ps prefix !! key = Some v ->
  exists k t, key = prefix +:+ k /\ ps !! k = Some t /\ v = VT t.
Proof.
  unfold torch_export. intros Hk.
  apply (lookup_kmap_Some (String.app prefix)) in Hk as (k & -> & Hk).
  rewrite lookup_fmap in Hk. destruct (ps !! k) as [t |] eqn:E; [| discriminate].
  injection Hk as <-. eauto.
Qed.

Lemma torch_export_empty_prefix ps : torch_export ps "" = VT <$> ps.
Proof.
  apply map_eq. intros k. rewrite lookup_fmap. change k with ("" +:+ k) at 1.
  apply torch_export_lookup.
Qed.

Lemma torch_export_dom ps prefix :
  dom (torch_export ps prefix) = set_map (String.app prefix) (dom ps).
Proof.
  unfold torch_export. rewrite (dom_kmap_L (String.app prefix)), dom_fmap_L.
  reflexivity.
Qed.




Lemma insert_app_new {A} (l : list A) (x y : A) :
  <[length l := y]> (l ++ [x]) = l ++ [y].
Proof.
  rewrite insert_app_r_alt by lia. rewrite Nat.sub_diag. reflexivity.
Qed.

(** *** Closed forms of the two methods *)

Lemma state_dict_Some w d prefix keep_vars :
  d < length (dicts w) ->
  state_dict (Some d) prefix keep_vars w =
    (Ok d, exported w (dicts w) (Some d) d (length (dicts w)) prefix).
Proof.
  intros Hd.
  unfold state_dict, bind, sub_state_dict, dict_set, ret, exported. cbn.
  f_equal. f_equal.
  - set (ds := dicts w) in *.
    set (Eb := torch_export (to_wrap (self w)) prefix ∪ deref ds d).
    set (Ea := torch_export (adapter (self w)) prefix).
    rewrite deref_app_new, (right_id_L ∅ (∪)), insert_app_new, length_insert.
    rewrite deref_app_l by (rewrite length_insert; exact Hd).
    rewrite deref_insert_eq by exact Hd.
    rewrite !insert_app_l by (rewrite ?length_insert; exact Hd).
    rewrite list_insert_insert_eq. reflexivity.
  - rewrite <- app_assoc. reflexivity.
Qed.

Lemma state_dict_None w prefix keep_vars :
  state_dict None prefix keep_vars w =
    (Ok (length (dicts w)),
     exported w (dicts w ++ [∅]) None (length (dicts w)) (length (dicts w ++ [∅])) prefix).
Proof.
  change (state_dict None prefix keep_vars w) with
    (state_dict (Some (length (dicts w))) prefix keep_vars (with_new_dict w)).
  rewrite state_dict_Some by (cbn; rewrite length_app; cbn; lia).
  reflexivity.
Qed.

Lemma exported_destination w ds destination d prefix :
  d < length ds ->
  deref (dicts (exported w ds destination d (length ds) prefix)) d =
    <[prefix +:+ "adapters" := VD (length ds)]>
      (torch_export (to_wrap (self w)) prefix ∪ deref ds d).
Proof.
  intros Hd. cbn. apply deref_insert_eq. rewrite length_app. lia.
Qed.

Lemma exported_adapter w ds destination d prefix :
  d < length ds ->
  deref (dicts (exported w ds destination d (length ds) prefix)) (length ds) =
    torch_export (adapter (self w)) prefix.
Proof.
  intros Hd. cbn. rewrite deref_insert_ne by lia. apply deref_app_new.
Qed.

Lemma exported_other w ds destination d prefix l :
  d < length ds -> l < length ds -> l <> d ->
  deref (dicts (exported w ds destination d (length ds) prefix)) l = deref ds l.
Proof.
  intros Hd Hl Hne. cbn. rewrite deref_insert_ne by lia. apply deref_app_l, Hl.
Qed.

(** What [state_dict] returns, whatever the destination. *)
Lemma state_dict_exported w destination prefix keep_vars :
  (forall d, destination = Some d -> d < length (dicts w)) ->
  exists d ds,
    (state_dict destination prefix keep_vars w =
       (Ok d, exported w ds destination d (length ds) prefix)) /\
    (d < length ds) /\ (length (dicts w) <= length ds) /\
    (deref ds d = match destination with
                  | Some d0 => deref (dicts w) d0
                  | None => ∅
                  end) /\
    (forall l, l < length (dicts w) -> deref ds l = deref (dicts w) l).
Proof.
  intros Hd. destruct destination as [d0 |].
  - exists d0, (dicts w). rewrite state_dict_Some by auto.
    repeat split; auto.
  - exists (length (dicts w)), (dicts w ++ [∅]). rewrite state_dict_None.
    rewrite length_app. cbn [length]. repeat split; try lia.
    + apply deref_app_new.
    + intros l Hl. apply deref_app_l, Hl.
Qed.

Lemma prefix_adapters_ne prefix k :
  k <> "adapters" -> prefix +:+ k <> prefix +:+ "adapters".
Proof. intros Hk Heq. apply Hk. eapply (inj (String.app prefix)), Heq. Qed.

(** C5, as the code has it.  [state_dict] returns the destination; it holds
    every base key with the base module's value, except a base key that is
    itself '{prefix}adapters', which is overwritten; the adapter's whole
    state is a dictionary of its own, stored under the single key
    '{prefix}adapters'; with the default destination the top-level keys are
    the base keys and that key, and nothing else. *)
Theorem state_dict_namespace w destination prefix keep_vars :
  (forall d, destination = Some d -> d < length (dicts w)) ->
  exists d a w',
    (state_dict destination prefix keep_vars w = (Ok d, w')) /\
    (self w' = self w) /\
    (length (dicts w) <= a) /\ (a <> d) /\
    (deref (dicts w') d !! (prefix +:+ "adapters") = Some (VD a)) /\
    (deref (dicts w') a = torch_export (adapter (self w)) prefix) /\
    (forall k t, to_wrap (self w) !! k = Some t -> k <> "adapters" ->
       deref (dicts w') d !! (prefix +:+ k) = Some (VT t)) /\
    (forall key, key <> prefix +:+ "adapters" ->
       deref (dicts w') d !! key =
         (torch_export (to_wrap (self w)) prefix ∪
          match destination with
          | Some d0 => deref (dicts w) d0
          | None => ∅
          end) !! key) /\
    (destination = None ->
       dom (deref (dicts w') d) =
         {[prefix +:+ "adapters"]} ∪ dom (torch_export (to_wrap (self w)) prefix)).
Proof.
  intros Hdest.
  destruct (state_dict_exported w destination prefix keep_vars Hdest)
    as (d & ds & Hrun & Hd & Hlen & Hold & _).
  exists d, (length ds), (exported w ds destination d (length ds) prefix).
  split; [exact Hrun |]. split; [reflexivity |]. split; [exact Hlen |].
  split; [lia |].
  rewrite exported_destination, exported_adapter by exact Hd. rewrite Hold.
  split; [apply lookup_insert_eq |]. split; [reflexivity |].
  split; [| split].
  - intros k t Hk Hne.
    rewrite lookup_insert_ne by (apply not_eq_sym, prefix_adapters_ne, Hne).
    apply lookup_union_Some_l. rewrite torch_export_lookup, Hk. reflexivity.
  - intros key Hne. rewrite lookup_insert_ne by (apply not_eq_sym, Hne).
    reflexivity.
  - intros ->. rewrite dom_insert_L, (right_id_L ∅ (∪)). reflexivity.
Qed.

Lemma sub_load_state_dict_dict who l strict w :
  sub_load_state_dict who (VD l) strict w =
    (load_outcome (torch_load_error (sub who (self w)) (deref (dicts w) l) strict),
     sub_imported who w l strict).
Proof. reflexivity. Qed.

Lemma load_state_dict_present w d strict v :
  deref (dicts w) d !! "adapters" = Some v ->
  load_state_dict d strict w =
    (let* _ := sub_load_state_dict ToWrap (VD d) strict in
     let* nonempty := truthy v in
     if nonempty then sub_load_state_dict Adapter v strict else ret tt) (popped w d).
Proof.
  intros Hv. unfold load_state_dict, bind, dict_contains, dict_pop.
  rewrite bool_decide_eq_true_2 by eauto. rewrite Hv. reflexivity.
Qed.

Lemma load_state_dict_absent w d strict :
  deref (dicts w) d !! "adapters" = None ->
  load_state_dict d strict w =
    (load_outcome (torch_load_error (to_wrap (self w)) (deref (dicts w) d) strict),
     sub_imported ToWrap (with_new_dict w) d strict).
Proof.
  intros Hv. unfold load_state_dict, bind, dict_contains, new_dict, ret.
  rewrite Hv. rewrite bool_decide_eq_false_2 by (intros [? ?]; discriminate).
  rewrite sub_load_state_dict_dict. cbn [dicts self with_new_dict].
  unfold sub_imported, with_new_dict. cbn [dicts self trace sub].
  rewrite deref_app_empty.
  destruct (torch_load_error (to_wrap (self w)) (deref (dicts w) d) strict);
    cbn; [reflexivity |].
  rewrite deref_app_new. rewrite bool_decide_eq_true_2 by reflexivity.
  reflexivity.
Qed.
(** *** The sub-modules' import *)

(** A tensor of the parameter's own shape is copied as it is. *)
Lemma incoming_same_shape (old t : tensor) :
  shape t = shape old -> incoming old (VT t) = Some t.
Proof.
  intros E. unfold incoming. rewrite E.
  destruct (bool_decide (length (shape old) = 0)) eqn:E0,
           (bool_decide (length (shape old) = 1)) eqn:E1; cbn [andb].
  - apply bool_decide_eq_true_1 in E0. apply bool_decide_eq_true_1 in E1. lia.
  - rewrite bool_decide_eq_true_2 by congruence. reflexivity.
  - rewrite bool_decide_eq_true_2 by congruence. reflexivity.
  - rewrite bool_decide_eq_true_2 by congruence. reflexivity.
Qed.

Lemma torch_loaded_dom ps sd : dom (torch_loaded ps sd) = dom ps.
Proof.
  apply set_eq. intros k. rewrite !elem_of_dom. unfold torch_loaded.
  rewrite map_lookup_imap. destruct (ps !! k) as [old |]; cbn; [| reflexivity].
  split; intros _; [eauto |].
  destruct (sd !! k); eauto.
Qed.

(** Importing the export of a module of the same architecture gives that
    module's values. *)
Lemma torch_loaded_export ps ps' :
  dom ps' = dom ps ->
  (forall k t t', ps !! k = Some t -> ps' !! k = Some t' -> shape t = shape t') ->
  torch_loaded ps' (VT <$> ps) = ps.
Proof.
  intros Hdom Hshape. apply map_eq. intros k. unfold torch_loaded.
  rewrite map_lookup_imap, lookup_fmap.
  destruct (ps' !! k) as [t' |] eqn:E', (ps !! k) as [t |] eqn:E; cbn -[incoming].
  - rewrite incoming_same_shape by (eapply Hshape; eauto). reflexivity.
  - apply not_elem_of_dom in E. rewrite <- Hdom in E.
    apply not_elem_of_dom in E. congruence.
  - apply not_elem_of_dom in E'. rewrite Hdom in E'.
    apply not_elem_of_dom in E'. congruence.
  - reflexivity.
Qed.

Lemma torch_load_error_export ps ps' strict :
  dom ps' = dom ps ->
  (forall k t t', ps !! k = Some t -> ps' !! k = Some t' -> shape t = shape t') ->
  torch_load_error ps' (VT <$> ps) strict = None.
Proof.
  intros Hdom Hshape. unfold torch_load_error.
  rewrite bool_decide_eq_true_2; [reflexivity |].
  rewrite dom_fmap_L, Hdom. split; [| split].
  - destruct strict; [apply difference_diag_L | reflexivity].
  - destruct strict; [apply difference_diag_L | reflexivity].
  - apply dom_empty_iff_L, map_empty. intros k.
    rewrite map_lookup_imap, lookup_fmap.
    destruct (ps' !! k) as [t' |] eqn:E', (ps !! k) as [t |] eqn:E;
      cbn -[incoming copyable]; try reflexivity.
    unfold copyable. rewrite incoming_same_shape by (eapply Hshape; eauto).
    rewrite bool_decide_eq_true_2 by eauto. reflexivity.
Qed.

(** Modules of the same architecture have the same names and shapes. *)
Lemma same_architecture_dom ps ps' : same_architecture ps ps' -> dom ps' = dom ps.
Proof.
  unfold same_architecture. intros E.
  rewrite <- (dom_fmap_L shape ps'), E. apply dom_fmap_L.
Qed.

Lemma same_architecture_shape ps ps' k t t' :
  same_architecture ps ps' ->
  ps !! k = Some t -> ps' !! k = Some t' -> shape t = shape t'.
Proof.
  unfold same_architecture. intros E Hk Hk'.
  assert (E' : (shape <$> ps') !! k = (shape <$> ps) !! k) by (rewrite E; reflexivity).
  rewrite !lookup_fmap, Hk, Hk' in E'. injection E' as ->. reflexivity.
Qed.

(** Once the key is popped, nothing touches the dictionaries any more. *)
Lemma load_after_pop_dicts strict d v w r w' :
  (let* _ := sub_load_state_dict ToWrap (VD d) strict in
   let* nonempty := truthy v in
   if nonempty then sub_load_state_dict Adapter v strict else ret tt) w = (r, w') ->
  dicts w' = dicts w.
Proof.
  unfold bind. rewrite sub_load_state_dict_dict.
  destruct (torch_load_error _ _ strict); cbn [load_outcome].
  - intros E. injection E as <- <-. reflexivity.
  - destruct v as [t | l]; unfold truthy; cbn.
    + destruct (tensor_bool t) as [[|] | e]; cbn; intros E; injection E as <- <-;
        reflexivity.
    + destruct (negb _); cbn; intros E; injection E as <- <-; reflexivity.
Qed.

(** *** The import, case by case *)

Lemma load_state_dict_present_dict w d strict la :
  deref (dicts w) d !! "adapters" = Some (VD la) ->
  deref (dicts (popped w d)) d = delete "adapters" (deref (dicts w) d) /\
  load_state_dict d strict w =
    match torch_load_error (to_wrap (self w))
            (delete "adapters" (deref (dicts w) d)) strict with
    | Some e => (Raise e, sub_imported ToWrap (popped w d) d strict)
    | None =>
        if bool_decide (deref (dicts (popped w d)) la = ∅)
        then (Ok tt, sub_imported ToWrap (popped w d) d strict)
        else (load_outcome
                (torch_load_error (adapter (self w))
                   (deref (dicts (popped w d)) la) strict),
              sub_imported Adapter (sub_imported ToWrap (popped w d) d strict) la strict)
    end.
Proof.
  intros Hv. pose proof (deref_lookup_lt _ _ _ _ Hv) as Hd.
  assert (Hpop : deref (dicts (popped w d)) d = delete "adapters" (deref (dicts w) d))
    by (apply deref_insert_eq, Hd).
  split; [exact Hpop |].
  rewrite (load_state_dict_present _ _ _ _ Hv). unfold bind.
  rewrite sub_load_state_dict_dict. cbn [sub self popped]. rewrite Hpop.
  destruct (torch_load_error (to_wrap (self w)) _ strict) as [e |];
    cbn [load_outcome]; [reflexivity |].
  unfold truthy. cbn [dicts sub_imported].
  destruct (bool_decide (deref (dicts (popped w d)) la = ∅)); cbn [negb];
    reflexivity.
Qed.

Lemma torch_loaded_empty ps : torch_loaded ps ∅ = ps.
Proof.
  apply map_eq. intros k. unfold torch_loaded.
  rewrite map_lookup_imap, lookup_empty. destruct (ps !! k); reflexivity.
Qed.

(** C6.  (i) When the reserved key is present and holds the adapter's
    sub-state, the key is removed from the incoming state, which is otherwise
    left as it is, and the first thing called is the base module's import,
    with the remainder (the state without the key) and the caller's strict
    flag.  If that raises, the import raises the same error and the adapter
    is left alone.  If not, the extracted sub-state is loaded into the
    adapter, with the same flag: the adapter's parameters take the values
    found in it, and the import ends as the adapter's import does; an
    extracted sub-state that is empty has nothing to load, and the import
    succeeds.  (ii) When the key is absent, the only call is the base
    module's import of the state, with the caller's flag; the import ends as
    that one does and the adapter's parameters stay as they were.  For a
    base-only checkpoint (a state made of the values of a base module of the
    same architecture) the import succeeds under either flag and the base
    module holds the values of the checkpoint. *)
Theorem load_state_dict_spec w d strict :
  (forall la,
     deref (dicts w) d !! "adapters" = Some (VD la) ->
     let remainder := delete "adapters" (deref (dicts w) d) in
     let extracted := deref (dicts (popped w d)) la in
     exists r w',
       (load_state_dict d strict w = (r, w')) /\
       (la <> d -> extracted = deref (dicts w) la) /\
       (deref (dicts w') d = remainder) /\
       (forall l, l <> d -> deref (dicts w') l = deref (dicts w) l) /\
       (exists rest,
          trace w' = trace w ++ CallLoadStateDict ToWrap (VD d) remainder strict :: rest) /\
       (to_wrap (self w') = torch_loaded (to_wrap (self w)) remainder) /\
       (forall e,
          torch_load_error (to_wrap (self w)) remainder strict = Some e ->
          (r = Raise e) /\ (adapter (self w') = adapter (self w)) /\
          (trace w' = trace w ++ [CallLoadStateDict ToWrap (VD d) remainder strict])) /\
       (torch_load_error (to_wrap (self w)) remainder strict = None ->
          (adapter (self w') = torch_loaded (adapter (self w)) extracted) /\
          (extracted = ∅ ->
             (r = Ok tt) /\
             (trace w' = trace w ++ [CallLoadStateDict ToWrap (VD d) remainder strict])) /\
          (extracted <> ∅ ->
             (r = load_outcome (torch_load_error (adapter (self w)) extracted strict)) /\
             (trace w' =
                trace w ++ [CallLoadStateDict ToWrap (VD d) remainder strict;
                            CallLoadStateDict Adapter (VD la) extracted strict])))) /\
  (deref (dicts w) d !! "adapters" = None ->
     exists r w',
       (load_state_dict d strict w = (r, w')) /\
       (adapter (self w') = adapter (self w)) /\
       (forall l, deref (dicts w') l = deref (dicts w) l) /\
       (trace w' =
          trace w ++ [CallLoadStateDict ToWrap (VD d) (deref (dicts w) d) strict]) /\
       (to_wrap (self w') = torch_loaded (to_wrap (self w)) (deref (dicts w) d)) /\
       (r = load_outcome
              (torch_load_error (to_wrap (self w)) (deref (dicts w) d) strict)) /\
       (forall ps,
          deref (dicts w) d = VT <$> ps ->
          same_architecture ps (to_wrap (self w)) ->
          (r = Ok tt) /\ (to_wrap (self w') = ps))).
Proof.
  split.
  - intros la Hv remainder extracted.
    destruct (load_state_dict_present_dict w d strict la Hv) as [Hpop Hrun].
    pose proof (deref_lookup_lt _ _ _ _ Hv) as Hd.
    fold remainder in Hpop, Hrun. fold extracted in Hrun.
    exists (fst (load_state_dict d strict w)), (snd (load_state_dict d strict w)).
    split; [apply surjective_pairing |].
    split.
    { intros Hne. subst extracted. cbn [dicts popped]. apply deref_insert_ne. auto. }
    rewrite Hrun.
    destruct (torch_load_error (to_wrap (self w)) remainder strict) as [e |] eqn:Hbase.
    + cbn [fst snd dicts sub_imported self trace set_sub sub to_wrap adapter].
      rewrite Hpop. split; [reflexivity |].
      split; [intros l Hl; cbn [dicts popped]; apply deref_insert_ne; auto |].
      split; [exists []; reflexivity |]. split; [reflexivity |].
      split; [| discriminate].
      intros e' E. injection E as <-. repeat split.
    + destruct (bool_decide (extracted = ∅)) eqn:Hempty.
      * apply bool_decide_eq_true_1 in Hempty.
        cbn [fst snd dicts sub_imported self trace set_sub sub to_wrap adapter].
        rewrite Hpop. split; [reflexivity |].
        split; [intros l Hl; cbn [dicts popped]; apply deref_insert_ne; auto |].
        split; [exists []; reflexivity |]. split; [reflexivity |].
        split; [discriminate |]. intros _.
        split; [rewrite Hempty, torch_loaded_empty; reflexivity |].
        split; [intros _; split; reflexivity |].
        intros Hne. destruct (Hne Hempty).
      * apply bool_decide_eq_false_1 in Hempty.
        cbn [fst snd dicts sub_imported self trace set_sub sub to_wrap adapter].
        rewrite Hpop. fold extracted. split; [reflexivity |].
        split; [intros l Hl; cbn [dicts popped]; apply deref_insert_ne; auto |].
        split; [eexists; rewrite <- app_assoc; reflexivity |].
        split; [reflexivity |]. split; [discriminate |]. intros _.
        split; [reflexivity |].
        split; [intros E; destruct (Hempty E) |].
        intros _. split; [reflexivity |]. rewrite <- app_assoc. reflexivity.
  - intros Hv. rewrite (load_state_dict_absent _ _ _ Hv).
    eexists _, _. split; [reflexivity |].
    cbn [dicts sub_imported with_new_dict self trace set_sub sub to_wrap adapter].
    rewrite deref_app_empty.
    split; [reflexivity |]. split; [intros l; apply deref_app_empty |].
    split; [reflexivity |]. split; [reflexivity |]. split; [reflexivity |].
    intros ps E Harch. rewrite E.
    pose proof (same_architecture_dom _ _ Harch) as Hdom.
    pose proof (fun k t t' => same_architecture_shape _ _ k t t' Harch) as Hshape.
    rewrite (torch_load_error_export _ _ strict Hdom Hshape).
    rewrite (torch_loaded_export _ _ Hdom Hshape). split; reflexivity.
Qed.

(** C10.  When the incoming state maps 'adapters' to an empty dictionary,
    the import is the base module's import of the remainder and nothing
    else: the only call made is the base module's, the adapter's
    parameters are untouched, and no error can come from the adapter, even
    in strict mode.  The same import run on the state without the key has
    the same outcome, leaves the same wrapper and makes the same call; it
    only creates the empty dictionary that stands for the absent state. *)
Theorem load_state_dict_empty_adapters w d strict la :
  deref (dicts w) d !! "adapters" = Some (VD la) ->
  deref (dicts w) la = ∅ ->
  let remainder := delete "adapters" (deref (dicts w) d) in
  let r := load_outcome (torch_load_error (to_wrap (self w)) remainder strict) in
  let wb := sub_imported ToWrap (popped w d) d strict in
  (load_state_dict d strict w = (r, wb)) /\
  (trace wb = trace w ++ [CallLoadStateDict ToWrap (VD d) remainder strict]) /\
  (adapter (self wb) = adapter (self w)) /\
  (deref (dicts (popped w d)) d !! "adapters" = None) /\
  (load_state_dict d strict (popped w d) = (r, with_new_dict wb)).
Proof.
  intros Hv Hla remainder r wb.
  destruct (load_state_dict_present_dict w d strict la Hv) as [Hpop Hrun].
  assert (Hne : d <> la).
  { intros ->. rewrite Hla, lookup_empty in Hv. discriminate Hv. }
  assert (Hla' : deref (dicts (popped w d)) la = ∅).
  { cbn. rewrite deref_insert_ne by exact Hne. exact Hla. }
  split; [| split; [| split; [| split]]].
  - rewrite Hrun, Hla', bool_decide_eq_true_2 by reflexivity.
    subst r remainder wb.
    destruct (torch_load_error (to_wrap (self w)) _ strict); reflexivity.
  - subst wb remainder. cbn [trace sub_imported popped]. rewrite <- Hpop.
    reflexivity.
  - reflexivity.
  - rewrite Hpop. apply lookup_delete_eq.
  - rewrite load_state_dict_absent by (rewrite Hpop; apply lookup_delete_eq).
    subst r remainder wb. rewrite Hpop.
    unfold sub_imported, with_new_dict. cbn [self dicts trace].
    rewrite deref_app_empty. reflexivity.
Qed.

(** C9, as the code has it.  The import pops the reserved key from the
    incoming dictionary, which is therefore changed when the key was
    there, and touches no other key and no other dictionary.  The export
    returns the destination itself (the caller's dictionary when one is
    given, a new one otherwise); this is the dictionary that the base
    module's export was given, has filled and has returned, and the export
    writes the reserved key into it, in place.  The dictionary that the
    adapter exported is a new one and stays as the adapter made it, and no
    dictionary that existed before, other than the destination, is
    changed. *)
Theorem state_methods_effects :
  (forall w d strict r w',
     load_state_dict d strict w = (r, w') ->
     (deref (dicts w') d = delete "adapters" (deref (dicts w) d)) /\
     (forall l, l <> d -> deref (dicts w') l = deref (dicts w) l)) /\
  (forall w destination prefix keep_vars,
     (forall d, destination = Some d -> d < length (dicts w)) ->
     let w0 := match destination with Some _ => w | None => with_new_dict w end in
     exists d a w1 w',
       (state_dict destination prefix keep_vars w = (Ok d, w')) /\
       (d = match destination with Some d0 => d0 | None => length (dicts w) end) /\
       (sub_state_dict ToWrap (Some d) prefix keep_vars w0 = (Ok d, w1)) /\
       (deref (dicts w') d = <[prefix +:+ "adapters" := VD a]> (deref (dicts w1) d)) /\
       (trace w' = trace w ++ [CallStateDict ToWrap (Some d) prefix;
                               CallStateDict Adapter None prefix]) /\
       (a <> d) /\ (length (dicts w) <= a) /\
       (deref (dicts w') a = torch_export (adapter (self w)) prefix) /\
       (deref (dicts w') d =
          <[prefix +:+ "adapters" := VD a]>
            (torch_export (to_wrap (self w)) prefix ∪
             match destination with
             | Some d0 => deref (dicts w) d0
             | None => ∅
             end)) /\
       (forall l, l <> d -> l < length (dicts w) ->
          deref (dicts w') l = deref (dicts w) l)).
Proof.
  split.
  - intros w d strict r w' Hrun.
    destruct (deref (dicts w) d !! "adapters") as [v |] eqn:Hv.
    + pose proof (deref_lookup_lt _ _ _ _ Hv) as Hd.
      rewrite (load_state_dict_present _ _ _ _ Hv) in Hrun.
      apply load_after_pop_dicts in Hrun. rewrite Hrun. cbn [dicts popped]. split.
      * apply deref_insert_eq, Hd.
      * intros l Hl. apply deref_insert_ne. auto.
    + rewrite (load_state_dict_absent _ _ _ Hv) in Hrun. injection Hrun as _ <-.
      cbn [dicts sub_imported with_new_dict]. split.
      * rewrite deref_app_empty. symmetry. apply delete_id, Hv.
      * intros l _. apply deref_app_empty.
  - intros w destination prefix keep_vars Hdest w0.
    set (d := match destination with Some d0 => d0 | None => length (dicts w) end).
    assert (Hd : d < length (dicts w0)).
    { subst d w0. destruct destination as [d0 |]; [auto |].
      cbn. rewrite length_app. cbn. lia. }
    assert (Hlen : length (dicts w) <= length (dicts w0)).
    { subst w0. destruct destination; [lia |]. cbn. rewrite length_app. lia. }
    assert (Hrun : state_dict destination prefix keep_vars w =
                   (Ok d, exported w (dicts w0) destination d (length (dicts w0)) prefix)).
    { subst d w0. destruct destination as [d0 |].
      - apply state_dict_Some. auto.
      - apply state_dict_None. }
    assert (Hold : deref (dicts w0) d =
                   match destination with
                   | Some d0 => deref (dicts w) d0
                   | None => ∅
                   end).
    { subst d w0. destruct destination; [reflexivity |]. apply deref_app_new. }
    assert (Hself : self w0 = self w) by (subst w0; destruct destination; reflexivity).
    exists d, (length (dicts w0)),
      (snd (sub_state_dict ToWrap (Some d) prefix keep_vars w0)),
      (exported w (dicts w0) destination d (length (dicts w0)) prefix).
    split; [exact Hrun |]. split; [reflexivity |]. split; [reflexivity |].
    rewrite exported_destination, exported_adapter by exact Hd.
    split.
    { cbn [snd sub_state_dict dicts sub]. rewrite deref_insert_eq by exact Hd.
      rewrite Hself. reflexivity. }
    split; [reflexivity |]. split; [lia |]. split; [exact Hlen |].
    split; [reflexivity |]. split; [rewrite Hold; reflexivity |].
    intros l Hne Hl. rewrite exported_other by (auto; lia).
    subst w0. destruct destination; [reflexivity |]. apply deref_app_l, Hl.
Qed.

(** *** Round trip *)

(** C7, as the code has it.  For a wrapper whose base module has no
    parameter named 'adapters', and a fresh wrapper of the same
    architecture, importing the state exported from the first into the
    second succeeds and leaves the second with exactly the parameter values
    of the first, in the base module and in the adapter. *)
Theorem state_dict_round_trip (w0 w0' : AdapterWrapper tensor)
    (ds : list (gmap string (val tensor))) (tr tr' : list (call tensor))
    (strict keep_vars : bool) :
  "adapters" ∉ dom (to_wrap w0) ->
  same_architecture (to_wrap w0) (to_wrap w0') ->
  same_architecture (adapter w0) (adapter w0') ->
  exists d w1 w2,
    (state_dict None "" keep_vars {| self := w0; dicts := ds; trace := tr |} =
       (Ok d, w1)) /\
    (load_state_dict d strict {| self := w0'; dicts := dicts w1; trace := tr' |} =
       (Ok tt, w2)) /\
    (self w2 = w0).
Proof.
  intros Hres Hb Ha.
  pose proof (same_architecture_dom _ _ Hb) as Hdb.
  pose proof (same_architecture_dom _ _ Ha) as Hda.
  pose proof (fun k t t' => same_architecture_shape _ _ k t t' Hb) as Hsb.
  pose proof (fun k t t' => same_architecture_shape _ _ k t t' Ha) as Hsa.
  set (w := {| self := w0; dicts := ds; trace := tr |}).
  set (ds0 := ds ++ [∅] : list (gmap string (val tensor))).
  assert (Hd : length ds < length ds0) by (unfold ds0; rewrite length_app; cbn; lia).
  set (w1 := exported w ds0 None (length ds) (length ds0) "").
  set (w' := {| self := w0'; dicts := dicts w1; trace := tr' |}).
  assert (HD : deref (dicts w') (length ds) =
               <["adapters" := VD (length ds0)]> (VT <$> to_wrap w0)).
  { unfold w', w1. cbn [dicts].
    rewrite (exported_destination w ds0 None (length ds) "" Hd).
    unfold ds0 at 2. rewrite deref_app_new, (right_id_L ∅ (∪)).
    rewrite torch_export_empty_prefix. reflexivity. }
  assert (HA : deref (dicts w') (length ds0) = VT <$> adapter w0).
  { unfold w', w1. cbn [dicts].
    rewrite (exported_adapter w ds0 None (length ds) "" Hd).
    apply torch_export_empty_prefix. }
  assert (Hrem : delete "adapters" (deref (dicts w') (length ds)) = VT <$> to_wrap w0).
  { rewrite HD. apply delete_insert_id.
    rewrite lookup_fmap. apply not_elem_of_dom in Hres. rewrite Hres. reflexivity. }
  assert (Hv : deref (dicts w') (length ds) !! "adapters" = Some (VD (length ds0))).
  { rewrite HD. apply lookup_insert_eq. }
  destruct (load_state_dict_present_dict w' (length ds) strict (length ds0) Hv)
    as [Hpop Hrun].
  assert (HA' : deref (dicts (popped w' (length ds))) (length ds0) = VT <$> adapter w0).
  { cbn [dicts popped]. rewrite deref_insert_ne by lia. exact HA. }
  exists (length ds), w1, (snd (load_state_dict (length ds) strict w')).
  split; [apply state_dict_None |]. fold w'.
  rewrite Hrun, Hrem, HA'. cbn [self w'].
  rewrite (torch_load_error_export _ _ strict Hdb Hsb).
  destruct (bool_decide (VT <$> adapter w0 = ∅)) eqn:Hempty; cbn [snd].
  - split; [reflexivity |].
    apply bool_decide_eq_true_1, fmap_empty_iff in Hempty.
    cbn [self sub_imported set_sub sub]. rewrite Hpop, Hrem.
    change (self (popped w' (length ds))) with w0'.
    rewrite (torch_loaded_export _ _ Hdb Hsb).
    assert (adapter w0' = ∅) as ->.
    { apply dom_empty_iff_L. rewrite Hda, Hempty. apply dom_empty_L. }
    rewrite <- Hempty. destruct w0. reflexivity.
  - rewrite (torch_load_error_export _ _ strict Hda Hsa). cbn [load_outcome snd].
    split; [reflexivity |].
    cbn [self sub_imported set_sub sub dicts adapter to_wrap].
    rewrite Hpop, Hrem, HA'.
    change (self (popped w' (length ds))) with w0'.
    rewrite (torch_loaded_export _ _ Hdb Hsb), (torch_loaded_export _ _ Hda Hsa).
    destruct w0. reflexivity.
Qed.
End StateDictProperties.

(** ** The state methods on concrete wrappers *)

Lemma state_dict_namespace_witness :
  exists d a w',
    (state_dict (Some 0) "p." false
       (world_of example_wrapper [{[ "step" := VT (Scalar 9) ]}]) = (Ok d, w')) /\
    (a <> d) /\
    (deref (dicts w') d !! "p.adapters" = Some (VD a)) /\
    (deref (dicts w') a = torch_export (adapter example_wrapper) "p.") /\
    (deref (dicts w') d !! "p.weight" = Some (VT (Vector [1; 2]%Z))) /\
    (deref (dicts w') d !! "step" = Some (VT (Scalar 9))).
Proof.
  destruct (state_dict_namespace
              (world_of example_wrapper [{[ "step" := VT (Scalar 9) ]}])
              (Some 0) "p." false)
    as (d & a & w' & Hrun & _ & _ & Hne & Hkey & Had & Hbase & Hother & _).
  { intros d E. injection E as <-. cbn. lia. }
  exists d, a, w'.
  split; [exact Hrun |]. split; [exact Hne |]. split; [exact Hkey |].
  split; [exact Had |]. split.
  - apply (Hbase "weight"); [reflexivity | discriminate].
  - rewrite Hother by discriminate. reflexivity.
Defined.

(** C5, as stated, fails: the base module of this wrapper has a parameter
    called 'adapters'; the exported state holds the adapter's dictionary under
    that key, so the base module's own entry is gone and the reserved key is
    one of the base keys. *)
Lemma state_dict_namespace_counterexample :
  to_wrap clashing_wrapper !! "adapters" = Some (Scalar 3) /\
  ("adapters" ∈ dom (torch_export (to_wrap clashing_wrapper) "")) /\
  exists w',
    state_dict None "" false (world_of clashing_wrapper []) = (Ok 0, w') /\
    deref (dicts w') 0 !! "adapters" = Some (VD 1) /\
    deref (dicts w') 0 !! "adapters" <> Some (VT (Scalar 3)).
Proof.
  split; [reflexivity |]. split.
  - apply (bool_decide_unpack _). vm_compute. exact I.
  - eexists. split; [vm_compute; reflexivity |].
    split; [vm_compute; reflexivity | vm_compute; discriminate].
Qed.

Lemma load_state_dict_spec_witness :
  (exists w',
     load_state_dict 0 true (world_of fresh_wrapper full_state) = (Ok tt, w') /\
     self w' = example_wrapper /\
     deref (dicts w') 0 = delete "adapters" (deref full_state 0) /\
     trace w' = [CallLoadStateDict ToWrap (VD 0)
                   (delete "adapters" (deref full_state 0)) true;
                 CallLoadStateDict Adapter (VD 1) (deref full_state 1) true]) /\
  (exists w',
     load_state_dict 0 true (world_of fresh_wrapper empty_adapters_state) = (Ok tt, w') /\
     to_wrap (self w') = to_wrap example_wrapper /\
     adapter (self w') = adapter fresh_wrapper) /\
  (exists w',
     load_state_dict 0 true (world_of fresh_wrapper base_only_state) = (Ok tt, w') /\
     to_wrap (self w') = to_wrap example_wrapper /\
     adapter (self w') = adapter fresh_wrapper /\
     trace w' = [CallLoadStateDict ToWrap (VD 0) (deref base_only_state 0) true]).
Proof.
  split; [| split].
  - destruct (load_state_dict_spec (world_of fresh_wrapper full_state) 0 true)
      as [Hpresent _].
    destruct (Hpresent 1 eq_refl)
      as (r & w' & Hrun & Hex & Hrem & _ & _ & Hbase & _ & Hok).
    destruct Hok as (Hadapter & _ & Hfull); [vm_compute; reflexivity |].
    destruct Hfull as [-> Htrace]; [vm_compute; discriminate |].
    exists w'. split.
    { rewrite Hrun. vm_compute. reflexivity. }
    split.
    { destruct w' as [[b a] ds tr]. cbn in Hbase, Hadapter. rewrite Hbase, Hadapter.
      vm_compute. reflexivity. }
    split; [exact Hrem |].
    rewrite Htrace, Hex by discriminate. reflexivity.
  - destruct (load_state_dict_spec (world_of fresh_wrapper empty_adapters_state) 0 true)
      as [Hpresent _].
    destruct (Hpresent 1 eq_refl)
      as (r & w' & Hrun & _ & _ & _ & _ & Hbase & _ & Hok).
    destruct Hok as (Hadapter & Hempty & _); [vm_compute; reflexivity |].
    destruct Hempty as [-> _]; [vm_compute; reflexivity |].
    exists w'. split; [exact Hrun |]. split.
    + rewrite Hbase. vm_compute. reflexivity.
    + rewrite Hadapter. vm_compute. reflexivity.
  - destruct (load_state_dict_spec (world_of fresh_wrapper base_only_state) 0 true)
      as [_ Habsent].
    destruct (Habsent eq_refl)
      as (r & w' & Hrun & Hadapter & _ & Htrace & _ & _ & Hcheckpoint).
    destruct (Hcheckpoint (to_wrap example_wrapper)) as [-> Hbase];
      [vm_compute; reflexivity | vm_compute; reflexivity |].
    exists w'. split; [exact Hrun |]. split; [exact Hbase |].
    split; [exact Hadapter | exact Htrace].
Defined.

Lemma state_dict_round_trip_witness :
  exists d w1 w2,
    (state_dict None "" false {| self := example_wrapper; dicts := []; trace := [] |} =
       (Ok d, w1)) /\
    (load_state_dict d true {| self := fresh_wrapper; dicts := dicts w1; trace := [] |} =
       (Ok tt, w2)) /\
    (self w2 = example_wrapper).
Proof.
  apply (state_dict_round_trip example_wrapper fresh_wrapper [] [] [] true false).
  - apply (bool_decide_unpack _). vm_compute. exact I.
  - vm_compute. reflexivity.
  - vm_compute. reflexivity.
Defined.

(** C7, as stated, fails: for the wrapper whose base module has a parameter
    called 'adapters', importing the exported state into a fresh wrapper of
    the same architecture raises in strict mode, and in either mode leaves
    that parameter at its initial value. *)
Lemma state_dict_round_trip_counterexample :
  same_architecture (to_wrap clashing_wrapper) (to_wrap fresh_clashing_wrapper) /\
  same_architecture (adapter clashing_wrapper) (adapter fresh_clashing_wrapper) /\
  exists w1,
    state_dict None "" false (world_of clashing_wrapper []) = (Ok 0, w1) /\
    fst (load_state_dict 0 true (world_of fresh_clashing_wrapper (dicts w1))) =
      Raise (LoadError {[ "adapters" ]} ∅ ∅) /\
    to_wrap (self (snd (load_state_dict 0 true
                          (world_of fresh_clashing_wrapper (dicts w1))))) !! "adapters" =
      Some (Scalar 0) /\
    to_wrap (self (snd (load_state_dict 0 false
                          (world_of fresh_clashing_wrapper (dicts w1))))) !! "adapters" =
      Some (Scalar 0) /\
    to_wrap clashing_wrapper !! "adapters" = Some (Scalar 3).
Proof.
  split; [vm_compute; reflexivity |]. split; [vm_compute; reflexivity |].
  eexists. split; [vm_compute; reflexivity |].
  repeat split; vm_compute; reflexivity.
Qed.

Lemma state_methods_effects_witness :
  (exists r w',
     load_state_dict 0 true (world_of fresh_wrapper full_state) = (r, w') /\
     deref (dicts w') 0 = delete "adapters" (deref full_state 0) /\
     deref (dicts w') 1 = deref full_state 1) /\
  (exists a w1 w',
     state_dict (Some 0) "" false
       (world_of example_wrapper [{[ "step" := VT (Scalar 9) ]}]) = (Ok 0, w') /\
     sub_state_dict ToWrap (Some 0) "" false
       (world_of example_wrapper [{[ "step" := VT (Scalar 9) ]}]) = (Ok 0, w1) /\
     deref (dicts w') 0 = <["adapters" := VD a]> (deref (dicts w1) 0) /\
     deref (dicts w') a = torch_export (adapter example_wrapper) "" /\
     deref (dicts w') 0 !! "adapters" = Some (VD a) /\
     deref (dicts w') 0 !! "step" = Some (VT (Scalar 9))) /\
  (exists a w',
     state_dict None "" false
       (world_of example_wrapper [{[ "step" := VT (Scalar 9) ]}]) = (Ok 1, w') /\
     deref (dicts w') 1 !! "adapters" = Some (VD a) /\
     deref (dicts w') 0 = {[ "step" := VT (Scalar 9) ]}).
Proof.
  destruct state_methods_effects as [Himport Hexport].
  split; [| split].
  - destruct (load_state_dict 0 true (world_of fresh_wrapper full_state))
      as [r w'] eqn:E.
    destruct (Himport _ _ _ _ _ E) as [Hd Hl].
    exists r, w'. split; [reflexivity |]. split; [exact Hd |].
    apply Hl. discriminate.
  - destruct (Hexport (world_of example_wrapper [{[ "step" := VT (Scalar 9) ]}])
                (Some 0) "" false)
      as (d & a & w1 & w' & Hrun & Ed & Hbase & Hwrite & _ & _ & _ & Ha & Hd & _).
    { intros d E. injection E as <-. cbn. lia. }
    cbn in Ed. subst d.
    exists a, w1, w'. split; [exact Hrun |]. split; [exact Hbase |].
    split; [exact Hwrite |]. split; [exact Ha |].
    rewrite Hd. split; [apply lookup_insert_eq |].
    vm_compute. reflexivity.
  - destruct (Hexport (world_of example_wrapper [{[ "step" := VT (Scalar 9) ]}])
                None "" false)
      as (d & a & w1 & w' & Hrun & Ed & _ & _ & _ & _ & _ & _ & Hd & Hother).
    { intros d E. discriminate E. }
    cbn in Ed. subst d.
    exists a, w'. split; [exact Hrun |].
    rewrite Hd. split; [apply lookup_insert_eq |].
    apply (Hother 0); [discriminate | cbn; lia].
Defined.

(** C9, as stated, fails.  After the import the incoming dictionary has lost
    its 'adapters' key; and the dictionary that the base module's export
    returns (the destination, number 0) is the one that the wrapper's export
    then writes the 'adapters' key into. *)
Lemma state_methods_effects_counterexample :
  (exists w',
     load_state_dict 0 true (world_of fresh_wrapper full_state) = (Ok tt, w') /\
     deref full_state 0 !! "adapters" = Some (VD 1) /\
     deref (dicts w') 0 !! "adapters" = None) /\
  (exists w1 w',
     sub_state_dict ToWrap (Some 0) "" false (world_of example_wrapper [∅]) =
       (Ok 0, w1) /\
     state_dict (Some 0) "" false (world_of example_wrapper [∅]) = (Ok 0, w') /\
     deref (dicts w1) 0 !! "adapters" = None /\
     deref (dicts w') 0 !! "adapters" = Some (VD 1)).
Proof.
  split.
  - eexists. split; [vm_compute; reflexivity |].
    split; vm_compute; reflexivity.
  - eexists _, _. split; [vm_compute; reflexivity |].
    split; [vm_compute; reflexivity |]. split; vm_compute; reflexivity.
Qed.

Lemma load_state_dict_empty_adapters_witness :
  exists w',
    load_state_dict 0 true (world_of fresh_wrapper empty_adapters_state) = (Ok tt, w') /\
    adapter (self w') = adapter fresh_wrapper /\
    trace w' = [CallLoadStateDict ToWrap (VD 0)
                  (delete "adapters" (deref empty_adapters_state 0)) true] /\
    load_state_dict 0 true (popped (world_of fresh_wrapper empty_adapters_state) 0) =
      (Ok tt, with_new_dict w').
Proof.
  destruct (load_state_dict_empty_adapters
              (world_of fresh_wrapper empty_adapters_state) 0 true 1)
    as (Hrun & Htrace & Hadapter & _ & Habsent);
    [vm_compute; reflexivity | vm_compute; reflexivity |].
  eexists. split; [exact Hrun |]. split; [exact Hadapter |].
  split; [exact Htrace | exact Habsent].
Defined.

(** ** Further properties of the LoRA transform *)

(** X1.  Whatever the module and its name, the transform has three
    outcomes only: the module itself with the store untouched, when the name
    is not in the target set; a wrapper whose [to_wrap] is the module,
    unmodified, when the name is in the target set; or AttributeError with
    the store untouched, when the name is in the target set and the module
    lacks a feature count. *)
Theorem transform_outcomes (self : LoRA) (T : Z) (m : module) (n p : option string)
    (s s' : store) (r : outcome module) :
  transform self T m n p s = (r, s') ->
  match r with
  | Ok m' =>
      (name_in n (target_modules self) = false /\ m' = m /\ s' = s) \/
      (name_in n (target_modules self) = true /\
       exists a, m' = AdapterParallelAdd m a)
  | Raise e =>
      name_in n (target_modules self) = true /\ s' = s /\
      (e = AttributeError "in_features" \/ e = AttributeError "out_features")
  end.
Proof.
  unfold transform. destruct (name_in n (target_modules self)).
  - destruct m as [[i |] [o |] ps cs | a ps | b a];
      destruct (name_in n ["linear_qkv"; "linear_fc1"]); cbn;
      intros H; injection H as <- <-; eauto 6.
  - intros H. injection H as <- <-. left. auto.
Qed.

Lemma transform_outcomes_witness :
  (exists a,
     transform LoRA_default 2 (Module (Some 8%Z) (Some 4%Z) [] [])
       (Some "linear_proj") None [] =
       (Ok (AdapterParallelAdd (Module (Some 8%Z) (Some 4%Z) [] []) a), [true; true])) /\
  transform LoRA_default 2 (Module (Some 8%Z) None [] []) (Some "linear_proj") None [true] =
    (Raise (AttributeError "out_features"), [true]).
Proof.
  split.
  - destruct (transform LoRA_default 2 (Module (Some 8%Z) (Some 4%Z) [] [])
                (Some "linear_proj") None []) as [r s'] eqn:Hrun.
    pose proof (transform_outcomes _ _ _ _ _ _ _ _ Hrun) as H.
    vm_compute in Hrun. injection Hrun as <- <-.
    destruct H as [(E & _) | (_ & a & E)].
    + vm_compute in E. discriminate E.
    + exists a. rewrite <- E. reflexivity.
  - destruct (transform LoRA_default 2 (Module (Some 8%Z) None [] [])
                (Some "linear_proj") None [true]) as [r s'] eqn:Hrun.
    pose proof (transform_outcomes _ _ _ _ _ _ _ _ Hrun) as H.
    vm_compute in Hrun. injection Hrun as <- <-.
    destruct H as (_ & _ & [E | E]); [discriminate E | reflexivity].
Defined.

(** X2.  On a targeted module the attributes are read in the order
    [in_features], [out_features]: the error names the first one that is
    missing, and a module with both is wrapped. *)
Theorem transform_attribute_order (self : LoRA) (T : Z) (i o : option Z)
    (ps : list (string * ploc)) (cs : list (string * module))
    (name : string) (prefix : option string) (s : store) :
  name ∈ target_modules self ->
  match i, o with
  | None, _ =>
      transform self T (Module i o ps cs) (Some name) prefix s =
        (Raise (AttributeError "in_features"), s)
  | Some _, None =>
      transform self T (Module i o ps cs) (Some name) prefix s =
        (Raise (AttributeError "out_features"), s)
  | Some _, Some _ =>
      exists a,
        fst (transform self T (Module i o ps cs) (Some name) prefix s) =
          Ok (AdapterParallelAdd (Module i o ps cs) a)
  end.
Proof.
  intros Hin. unfold transform. rewrite (name_in_Some _ _ Hin).
  destruct i as [i |], o as [o |];
    destruct (name_in (Some name) ["linear_qkv"; "linear_fc1"]); cbn;
    eauto.
Qed.

Lemma transform_attribute_order_witness :
  transform LoRA_default 4 (Module None None [("weight", 0)] [])
    (Some "linear_qkv") None [true] =
    (Raise (AttributeError "in_features"), [true]).
Proof.
  apply (transform_attribute_order LoRA_default 4 None None [("weight", 0)] []
           "linear_qkv" None [true]).
  apply (bool_decide_unpack _). vm_compute. exact I.
Defined.

(** X3.  The adapter of a targeted module takes its rank, scaling factor,
    dropout rate and dropout position from the policy; its activation is the
    identity, it has no normalisation, its column weights start normal and
    its row weights at zero, and its output is not gathered.  Its input is
    taken as already split exactly when the name is neither 'linear_qkv' nor
    'linear_fc1'. *)
Theorem transform_adapter_arguments (self : LoRA) (T I O : Z)
    (ps : list (string * ploc)) (cs : list (string * module))
    (name : string) (prefix : option string) (s : store) :
  name ∈ target_modules self ->
  exists a ps',
    fst (transform self T (Module (Some I) (Some O) ps cs) (Some name) prefix s) =
      Ok (AdapterParallelAdd (Module (Some I) (Some O) ps cs)
            (ParallelLinearAdapter a ps')) /\
    a_dim a = dim self /\ a_alpha a = alpha self /\
    a_dropout a = dropout self /\ a_dropout_position a = dropout_position self /\
    a_activation a = "identity" /\ a_norm_position a = None /\ a_norm_type a = None /\
    a_column_init_method a = "normal" /\ a_row_init_method a = "zero" /\
    a_gather_output a = false /\
    (a_input_is_parallel a = true <-> name ∉ ["linear_qkv"; "linear_fc1"]).
Proof.
  intros Hin. unfold transform. rewrite (name_in_Some _ _ Hin).
  destruct (name_in (Some name) ["linear_qkv"; "linear_fc1"]) eqn:E; cbn;
    eexists _, _; (split; [reflexivity |]); cbn; repeat (split; [reflexivity |]);
    cbn in E.
  - apply bool_decide_eq_true_1 in E. split; [discriminate | intros Hn; destruct (Hn E)].
  - apply bool_decide_eq_false_1 in E. split; auto.
Qed.

Lemma transform_adapter_arguments_witness :
  exists a ps',
    fst (transform LoRA_default 4 (Module (Some 192%Z) (Some 768%Z) [] [])
           (Some "linear_proj") None []) =
      Ok (AdapterParallelAdd (Module (Some 192%Z) (Some 768%Z) [] [])
            (ParallelLinearAdapter a ps')) /\
    a_dim a = 32%Z /\ a_alpha a = 32%Z /\ a_gather_output a = false /\
    a_input_is_parallel a = true.
Proof.
  destruct (transform_adapter_arguments LoRA_default 4 192 768 [] []
              "linear_proj" None [])
    as (a & ps' & Hrun & Hdim & Halpha & _ & _ & _ & _ & _ & _ & _ & Hgather & Hpar).
  { apply (bool_decide_unpack _). vm_compute. exact I. }
  exists a, ps'. split; [exact Hrun |]. split; [exact Hdim |].
  split; [exact Halpha |]. split; [exact Hgather |].
  apply Hpar. apply (bool_decide_unpack _). vm_compute. exact I.
Defined.

(** X4.  Without tensor parallelism (world size 1) the adapter is built with
    the module's own feature counts, whatever the name. *)
Theorem transform_single_rank (self : LoRA) (I O : Z)
    (ps : list (string * ploc)) (cs : list (string * module))
    (name : string) (prefix : option string) (s : store) :
  name ∈ target_modules self ->
  exists a ps',
    fst (transform self 1 (Module (Some I) (Some O) ps cs) (Some name) prefix s) =
      Ok (AdapterParallelAdd (Module (Some I) (Some O) ps cs)
            (ParallelLinearAdapter a ps')) /\
    a_in_features a = I /\ a_out_features a = O.
Proof.
  intros Hin. unfold transform. rewrite (name_in_Some _ _ Hin).
  destruct (name_in (Some name) ["linear_qkv"; "linear_fc1"]); cbn;
    eexists _, _; (split; [reflexivity |]); cbn; split; lia.
Qed.

Lemma transform_single_rank_witness :
  exists a ps',
    fst (transform LoRA_default 1 (Module (Some 768%Z) (Some 2304%Z) [] [])
           (Some "linear_qkv") None []) =
      Ok (AdapterParallelAdd (Module (Some 768%Z) (Some 2304%Z) [] [])
            (ParallelLinearAdapter a ps')) /\
    a_in_features a = 768%Z /\ a_out_features a = 2304%Z.
Proof.
  apply (transform_single_rank LoRA_default 768 2304 [] [] "linear_qkv" None []).
  apply (bool_decide_unpack _). vm_compute. exact I.
Defined.

(** ** Further properties of the forward pass *)

Section ForwardFurther.
Context {tensor : Type} `{Torch tensor} {S : Type}.
Implicit Types (x bias primary v r : pyval tensor) (lo d t : tensor) (s : S).

(** X5.  Whenever [forward] returns, it returns a pair, and the second
    component is the second of the two values that the base module's result
    unpacked into: the bias is never touched, whatever the adapter does. *)
Theorem forward_returns_pair
    (to_wrap_call adapter_call : pyval tensor -> St S (pyval tensor)) x s v s' :
  forward to_wrap_call adapter_call x s = (Ok v, s') ->
  exists r s1 primary bias sum,
    to_wrap_call x s = (Ok r, s1) /\
    unpack2 r s1 = (Ok (primary, bias), s1) /\
    v = PTuple [sum; bias].
Proof.
  unfold forward. intros Hrun.
  apply bind_Ok_inv in Hrun as (r & s1 & Hbase & Hrun).
  apply bind_Ok_inv in Hrun as ([primary bias] & s1' & Hunpack & Hrun).
  apply bind_Ok_inv in Hrun as ([lo ao] & s2 & _ & Hrun).
  apply bind_Ok_inv in Hrun as (sum & s3 & _ & Hrun).
  injection Hrun as <- <-.
  assert (s1' = s1) as ->.
  { clear -Hunpack. unfold unpack2, ret, raise in Hunpack.
    destruct r as [t | [| a [| b [| c vs]]] |];
      try discriminate Hunpack;
      try (injection Hunpack as _ _ <-; reflexivity).
    destruct (tensor_iter t) as [[| a [| b [| c ts]]] | e];
      try discriminate Hunpack.
    injection Hunpack as _ _ <-. reflexivity. }
  exists r, s1, primary, bias, sum. auto.
Qed.

(** X6.  Errors surface as they come.  An exception of the base module stops
    [forward] before the adapter is called: the result is that exception
    and the state the base module left, for every adapter.  An exception of
    the adapter surfaces after the base module has run. *)
Theorem forward_propagates_errors
    (to_wrap_call adapter_call : pyval tensor -> St S (pyval tensor))
    x s s1 s2 e lo bias :
  (to_wrap_call x s = (Raise e, s1) ->
   forall other_adapter, forward to_wrap_call other_adapter x s = (Raise e, s1)) /\
  (to_wrap_call x s = (Ok (PTuple [PTensor lo; bias]), s1) ->
   adapter_call x s1 = (Raise e, s2) ->
   forward to_wrap_call adapter_call x s = (Raise e, s2)).
Proof.
  split.
  - intros Hbase other. unfold forward. apply bind_Raise, Hbase.
  - intros Hbase Hadapter. unfold forward.
    rewrite (bind_Ok _ _ _ _ _ Hbase). cbn. unfold bind at 1 2.
    rewrite Hadapter. reflexivity.
Qed.

(** X7.  A base module that returns one bare tensor with exactly two rows is
    not rejected: the tensor is split, its first row is taken for the
    output and its second row is returned as the bias.  The result is the
    sum of the first row and the adapter's output, or the exception of that
    sum. *)
Theorem forward_splits_two_rows
    (to_wrap_call adapter_call : pyval tensor -> St S (pyval tensor))
    x s s1 s2 t row0 row1 d :
  to_wrap_call x s = (Ok (PTensor t), s1) ->
  tensor_iter t = Ok [row0; row1] ->
  adapter_call x s1 = (Ok (PTensor d), s2) ->
  forward to_wrap_call adapter_call x s =
    (match tensor_add row0 d with
     | Ok sum => Ok (PTuple [PTensor sum; PTensor row1])
     | Raise e => Raise e
     end, s2).
Proof.
  intros Hbase Hiter Hadapter. unfold forward.
  rewrite (bind_Ok _ _ _ _ _ Hbase). cbn. rewrite Hiter. cbn.
  unfold bind at 1 2. rewrite Hadapter. cbn.
  destruct (tensor_add row0 d); reflexivity.
Qed.

(** X8.  When the primary output is neither a tensor nor a pair (None, or a
    tuple of another length), the adapter is still called on [x], and the
    sum with its tensor output raises TypeError. *)
Theorem forward_rejects_odd_primary
    (to_wrap_call adapter_call : pyval tensor -> St S (pyval tensor))
    x s s1 s2 primary bias d :
  to_wrap_call x s = (Ok (PTuple [primary; bias]), s1) ->
  (forall t, primary <> PTensor t) ->
  is_pair primary = false ->
  adapter_call x s1 = (Ok (PTensor d), s2) ->
  forward to_wrap_call adapter_call x s =
    (Raise (TypeError "unsupported operand type(s) for +"), s2).
Proof.
  intros Hbase Hnt Hnp Hadapter. unfold forward.
  rewrite (bind_Ok _ _ _ _ _ Hbase). cbn. rewrite Hnp.
  unfold bind at 1 2. rewrite Hadapter. cbn.
  destruct primary as [t | vs |]; [destruct (Hnt t); reflexivity | |]; reflexivity.
Qed.
End ForwardFurther.

Lemma forward_returns_pair_witness :
  exists r primary bias sum,
    (fun _ => ret (PTuple [PTensor (Vector [1; 2]%Z); PNone])) (PTensor (Scalar 1)) tt =
      (Ok r, tt) /\
    unpack2 (S := unit) r tt = (Ok (primary, bias), tt) /\
    PTuple [PTensor (Vector [2; 3]%Z); PNone] = PTuple [sum; bias].
Proof.
  destruct (forward_returns_pair (S := unit)
              (fun _ => ret (PTuple [PTensor (Vector [1; 2]%Z); PNone]))
              (fun v => ret v) (PTensor (Scalar 1)) tt
              (PTuple [PTensor (Vector [2; 3]%Z); PNone]) tt)
    as (r & s1 & primary & bias & sum & Hbase & Hunpack & Hv);
    [reflexivity |].
  destruct s1. exists r, primary, bias, sum. auto.
Defined.

Lemma forward_propagates_errors_witness :
  forward (S := unit) (fun _ => raise (ValueError "shape")) (fun v => ret v)
    (PTensor (Scalar 1)) tt = (Raise (ValueError "shape"), tt) /\
  forward (S := unit) (fun _ => ret (PTuple [PTensor (Scalar 1); PNone]))
    (fun _ => raise (ValueError "rank")) (PTensor (Scalar 1)) tt =
    (Raise (ValueError "rank"), tt).
Proof.
  split.
  - pose proof (forward_propagates_errors (S := unit)
                  (fun _ => raise (ValueError "shape")) (fun v => ret v)
                  (PTensor (Scalar 1)) tt tt tt (ValueError "shape") (Scalar 0) PNone)
      as [Hp _].
    exact (Hp eq_refl (fun v => ret v)).
  - pose proof (forward_propagates_errors (S := unit)
                  (fun _ => ret (PTuple [PTensor (Scalar 1); PNone]))
                  (fun _ => raise (ValueError "rank"))
                  (PTensor (Scalar 1)) tt tt tt (ValueError "rank") (Scalar 1) PNone)
      as [_ Hp].
    exact (Hp eq_refl eq_refl).
Defined.

Lemma forward_splits_two_rows_witness :
  forward (S := unit) (fun _ => ret (PTensor (Vector [5; 6]%Z)))
    (fun _ => ret (PTensor (Scalar 10))) (PTensor (Scalar 1)) tt =
    (Ok (PTuple [PTensor (Scalar 15); PTensor (Scalar 6)]), tt).
Proof.
  exact (forward_splits_two_rows (S := unit)
           (fun _ => ret (PTensor (Vector [5; 6]%Z)))
           (fun _ => ret (PTensor (Scalar 10))) (PTensor (Scalar 1)) tt tt tt
           (Vector [5; 6]%Z) (Scalar 5) (Scalar 6) (Scalar 10)
           eq_refl eq_refl eq_refl).
Defined.

Lemma forward_rejects_odd_primary_witness :
  forward (S := unit)
    (fun _ => ret (PTuple [PTuple [PTensor (Scalar 1); PTensor (Scalar 2);
                                   PTensor (Scalar 3)]; PNone]))
    (fun _ => ret (PTensor (Scalar 10))) (PTensor (Scalar 1)) tt =
    (Raise (TypeError "unsupported operand type(s) for +"), tt).
Proof.
  apply (forward_rejects_odd_primary (S := unit)
           (fun _ => ret (PTuple [PTuple [PTensor (Scalar 1); PTensor (Scalar 2);
                                          PTensor (Scalar 3)]; PNone]))
           (fun _ => ret (PTensor (Scalar 10))) (PTensor (Scalar 1)) tt tt tt
           (PTuple [PTensor (Scalar 1); PTensor (Scalar 2); PTensor (Scalar 3)])
           PNone (Scalar 10)); try reflexivity.
  intros t. discriminate.
Defined.

(** ** Further properties of the import *)

Section ImportFurther.
Context {tensor : Type} `{Torch tensor}.
Implicit Types (w : world tensor) (ds : list (gmap string (val tensor)))
  (ps : gmap string tensor) (sd : gmap string (val tensor)) (v : val tensor).

(** The incoming dictionary after an import, whatever its outcome. *)
Lemma load_state_dict_incoming w d strict r w' :
  load_state_dict d strict w = (r, w') ->
  deref (dicts w') d = delete "adapters" (deref (dicts w) d).
Proof.
  intros Hrun. destruct (deref (dicts w) d !! "adapters") as [v |] eqn:Hv.
  - pose proof (deref_lookup_lt _ _ _ _ Hv) as Hd.
    rewrite (load_state_dict_present _ _ _ _ Hv) in Hrun.
    apply load_after_pop_dicts in Hrun. rewrite Hrun.
    apply deref_insert_eq, Hd.
  - rewrite (load_state_dict_absent _ _ _ Hv) in Hrun. injection Hrun as _ <-.
    cbn [dicts sub_imported with_new_dict].
    rewrite deref_app_empty. symmetry. apply delete_id, Hv.
Qed.

(** X9.  The adapter part of a state dictionary can be imported only once.
    After an import, whatever its outcome, importing the same dictionary
    again, into this or any other wrapper, only calls the base module: the
    adapter of that wrapper is left as it is. *)
Theorem load_state_dict_consumes_key w d strict r w'
    (other : AdapterWrapper tensor) (tr : list (call tensor)) (strict' : bool) :
  load_state_dict d strict w = (r, w') ->
  exists r2 w2,
    load_state_dict d strict' {| self := other; dicts := dicts w'; trace := tr |} =
      (r2, w2) /\
    adapter (self w2) = adapter other /\
    trace w2 = tr ++ [CallLoadStateDict ToWrap (VD d)
                        (delete "adapters" (deref (dicts w) d)) strict'].
Proof.
  intros Hrun. pose proof (load_state_dict_incoming _ _ _ _ _ Hrun) as Hd.
  set (w2 := {| self := other; dicts := dicts w'; trace := tr |}).
  assert (Habsent : deref (dicts w2) d !! "adapters" = None).
  { cbn [dicts w2]. rewrite Hd. apply lookup_delete_eq. }
  eexists _, _. split; [apply (load_state_dict_absent _ _ _ Habsent) |].
  split; [reflexivity |].
  cbn [trace sub_imported with_new_dict dicts w2]. rewrite deref_app_empty, Hd.
  reflexivity.
Qed.

(** X10.  A failed import is not undone.  When the base module's import of
    the remainder raises, the import raises that error; the 'adapters' key
    is already gone from the incoming dictionary, the base module holds the
    values that could be copied, and the adapter has not been touched. *)
Theorem load_state_dict_base_failure w d strict v e :
  deref (dicts w) d !! "adapters" = Some v ->
  torch_load_error (to_wrap (self w)) (delete "adapters" (deref (dicts w) d)) strict =
    Some e ->
  exists w',
    load_state_dict d strict w = (Raise e, w') /\
    deref (dicts w') d !! "adapters" = None /\
    to_wrap (self w') =
      torch_loaded (to_wrap (self w)) (delete "adapters" (deref (dicts w) d)) /\
    adapter (self w') = adapter (self w) /\
    trace w' = trace w ++ [CallLoadStateDict ToWrap (VD d)
                             (delete "adapters" (deref (dicts w) d)) strict].
Proof.
  intros Hv He. pose proof (deref_lookup_lt _ _ _ _ Hv) as Hd.
  assert (Hpop : deref (dicts (popped w d)) d = delete "adapters" (deref (dicts w) d))
    by (apply deref_insert_eq, Hd).
  exists (sub_imported ToWrap (popped w d) d strict).
  rewrite (load_state_dict_present _ _ _ _ Hv).
  split.
  - apply bind_Raise. rewrite sub_load_state_dict_dict.
    cbn [sub self popped]. rewrite Hpop, He. reflexivity.
  - cbn [dicts self trace sub_imported set_sub sub to_wrap adapter].
    rewrite Hpop. split; [apply lookup_delete_eq |]. auto.
Qed.

(** X11.  The base module is imported before the adapter is tried.  When
    the base module's import succeeds and the adapter's import of a
    non-empty state raises, the import raises the adapter's error with the
    base module already holding the imported values. *)
Theorem load_state_dict_adapter_failure w d strict la e :
  deref (dicts w) d !! "adapters" = Some (VD la) ->
  torch_load_error (to_wrap (self w)) (delete "adapters" (deref (dicts w) d)) strict =
    None ->
  deref (dicts (popped w d)) la <> ∅ ->
  torch_load_error (adapter (self w)) (deref (dicts (popped w d)) la) strict = Some e ->
  exists w',
    load_state_dict d strict w = (Raise e, w') /\
    to_wrap (self w') =
      torch_loaded (to_wrap (self w)) (delete "adapters" (deref (dicts w) d)) /\
    adapter (self w') =
      torch_loaded (adapter (self w)) (deref (dicts (popped w d)) la).
Proof.
  intros Hv Hbase Hne Hadapter.
  destruct (load_state_dict_present_dict w d strict la Hv) as [Hpop Hrun].
  rewrite Hbase, (bool_decide_eq_false_2 _ Hne), Hadapter in Hrun.
  eexists. split; [exact Hrun |].
  cbn [self sub_imported set_sub sub to_wrap adapter dicts]. rewrite Hpop.
  auto.
Qed.

(** X12.  When the reserved key holds a tensor instead of a dictionary, the
    base module is imported first and the tensor's truth value decides the
    rest: a false tensor lets the import succeed as if the key were absent,
    a true tensor is handed to the adapter's import, which rejects it with
    TypeError, and a tensor without a truth value raises there.  The
    adapter's parameters are untouched in every case. *)
Theorem load_state_dict_tensor_entry w d strict t :
  deref (dicts w) d !! "adapters" = Some (VT t) ->
  torch_load_error (to_wrap (self w)) (delete "adapters" (deref (dicts w) d)) strict =
    None ->
  exists w',
    load_state_dict d strict w =
      (match tensor_bool t with
       | Ok false => Ok tt
       | Ok true => Raise (TypeError "Expected state_dict to be dict-like")
       | Raise e => Raise e
       end, w') /\
    adapter (self w') = adapter (self w) /\
    to_wrap (self w') =
      torch_loaded (to_wrap (self w)) (delete "adapters" (deref (dicts w) d)).
Proof.
  intros Hv Hbase. pose proof (deref_lookup_lt _ _ _ _ Hv) as Hd.
  assert (Hpop : deref (dicts (popped w d)) d = delete "adapters" (deref (dicts w) d))
    by (apply deref_insert_eq, Hd).
  rewrite (load_state_dict_present _ _ _ _ Hv). unfold bind.
  rewrite sub_load_state_dict_dict. cbn [sub self popped]. rewrite Hpop, Hbase.
  cbn [load_outcome]. unfold truthy.
  destruct (tensor_bool t) as [[|] | e]; cbn [negb]; unfold bind, ret;
    try unfold sub_load_state_dict;
    eexists; (split; [reflexivity |]);
    cbn [self sub_imported set_sub sub to_wrap adapter];
    rewrite ?Hpop; split; reflexivity.
Qed.
End ImportFurther.

Lemma load_state_dict_consumes_key_witness :
  exists w1 r2 w2,
    load_state_dict 0 true (world_of fresh_wrapper full_state) = (Ok tt, w1) /\
    self w1 = example_wrapper /\
    load_state_dict 0 true (world_of fresh_wrapper (dicts w1)) = (r2, w2) /\
    adapter (self w2) = adapter fresh_wrapper.
Proof.
  destruct (load_state_dict 0 true (world_of fresh_wrapper full_state))
    as [r w1] eqn:Hrun.
  destruct (load_state_dict_consumes_key _ _ _ _ _ fresh_wrapper [] true Hrun)
    as (r2 & w2 & Hrun2 & Hadapter & _).
  vm_compute in Hrun. injection Hrun as <- <-.
  eexists _, r2, w2. split; [reflexivity |]. split; [vm_compute; reflexivity |].
  split; [exact Hrun2 | exact Hadapter].
Defined.

Lemma load_state_dict_base_failure_witness :
  exists w',
    load_state_dict 0 true
      (world_of fresh_wrapper
         [{[ "weight" := VT (Vector [1; 2]%Z); "adapters" := VD 1 ]};
          {[ "linear_in.weight" := VT (Vector [4]%Z);
             "linear_out.weight" := VT (Vector [5]%Z) ]}]) =
      (Raise (LoadError {[ "bias" ]} ∅ ∅), w') /\
    deref (dicts w') 0 !! "adapters" = None /\
    to_wrap (self w') !! "weight" = Some (Vector [1; 2]%Z) /\
    adapter (self w') = adapter fresh_wrapper.
Proof.
  destruct (load_state_dict_base_failure
              (world_of fresh_wrapper
                 [{[ "weight" := VT (Vector [1; 2]%Z); "adapters" := VD 1 ]};
                  {[ "linear_in.weight" := VT (Vector [4]%Z);
                     "linear_out.weight" := VT (Vector [5]%Z) ]}])
              0 true (VD 1) (LoadError {[ "bias" ]} ∅ ∅))
    as (w' & Hrun & Hkey & Hbase & Hadapter & _);
    [vm_compute; reflexivity | vm_compute; reflexivity |].
  exists w'. split; [exact Hrun |]. split; [exact Hkey |].
  split; [rewrite Hbase; vm_compute; reflexivity | exact Hadapter].
Defined.

Lemma load_state_dict_adapter_failure_witness :
  exists w',
    load_state_dict 0 true
      (world_of fresh_wrapper
         [{[ "weight" := VT (Vector [1; 2]%Z); "bias" := VT (Scalar 3);
             "adapters" := VD 1 ]};
          {[ "linear_in.weight" := VT (Vector [4]%Z) ]}]) =
      (Raise (LoadError {[ "linear_out.weight" ]} ∅ ∅), w') /\
    to_wrap (self w') = to_wrap example_wrapper /\
    adapter (self w') !! "linear_in.weight" = Some (Vector [4]%Z).
Proof.
  destruct (load_state_dict_adapter_failure
              (world_of fresh_wrapper
                 [{[ "weight" := VT (Vector [1; 2]%Z); "bias" := VT (Scalar 3);
                     "adapters" := VD 1 ]};
                  {[ "linear_in.weight" := VT (Vector [4]%Z) ]}])
              0 true 1 (LoadError {[ "linear_out.weight" ]} ∅ ∅))
    as (w' & Hrun & Hbase & Hadapter);
    [vm_compute; reflexivity | vm_compute; reflexivity
     | vm_compute; discriminate | vm_compute; reflexivity |].
  exists w'. split; [exact Hrun |].
  split; [rewrite Hbase | rewrite Hadapter]; vm_compute; reflexivity.
Defined.

Lemma load_state_dict_tensor_entry_witness :
  (exists w',
     load_state_dict 0 true
       (world_of fresh_wrapper
          [{[ "weight" := VT (Vector [1; 2]%Z); "bias" := VT (Scalar 3);
              "adapters" := VT (Scalar 0) ]}]) = (Ok tt, w') /\
     adapter (self w') = adapter fresh_wrapper) /\
  (exists w',
     load_state_dict 0 true
       (world_of fresh_wrapper
          [{[ "weight" := VT (Vector [1; 2]%Z); "bias" := VT (Scalar 3);
              "adapters" := VT (Vector [1; 1]%Z) ]}]) = (Raise BoolError, w') /\
     adapter (self w') = adapter fresh_wrapper).
Proof.
  split.
  - destruct (load_state_dict_tensor_entry
                (world_of fresh_wrapper
                   [{[ "weight" := VT (Vector [1; 2]%Z); "bias" := VT (Scalar 3);
                       "adapters" := VT (Scalar 0) ]}]) 0 true (Scalar 0))
      as (w' & Hrun & Hadapter & _);
      [vm_compute; reflexivity | vm_compute; reflexivity |].
    exists w'. split; [exact Hrun | exact Hadapter].
  - destruct (load_state_dict_tensor_entry
                (world_of fresh_wrapper
                   [{[ "weight" := VT (Vector [1; 2]%Z); "bias" := VT (Scalar 3);
                       "adapters" := VT (Vector [1; 1]%Z) ]}]) 0 true (Vector [1; 1]%Z))
      as (w' & Hrun & Hadapter & _);
      [vm_compute; reflexivity | vm_compute; reflexivity |].
    exists w'. split; [exact Hrun | exact Hadapter].
Defined.

(** ** Export and import together *)

Section ExportFurther.
Context {tensor : Type} `{Torch tensor}.
Implicit Types (w : world tensor) (ds : list (gmap string (val tensor)))
  (ps : gmap string tensor) (sd : gmap string (val tensor)) (v : val tensor).

(** An entry that cannot be copied, or that no parameter expects, makes the
    strict import fail. *)
Lemma torch_load_error_entry ps sd key l :
  sd !! key = Some (VD l) ->
  exists m u x,
    torch_load_error ps sd true = Some (LoadError m u x) /\ (key ∈ u \/ key ∈ x).
Proof.
  intros Hkey. unfold torch_load_error.
  set (x := dom (map_imap _ ps)).
  assert (Hin : key ∈ dom sd ∖ dom ps \/ key ∈ x).
  { destruct (ps !! key) as [old |] eqn:Hps.
    - right. apply elem_of_dom. exists old.
      rewrite map_lookup_imap, Hps. cbn. rewrite Hkey. reflexivity.
    - left. apply elem_of_difference. split.
      + apply elem_of_dom. eauto.
      + apply not_elem_of_dom, Hps. }
  rewrite bool_decide_eq_false_2.
  - eexists _, _, _. split; [reflexivity | exact Hin].
  - intros (_ & Hu & Hx). rewrite Hu, Hx in Hin.
    destruct Hin as [Hin | Hin]; apply not_elem_of_empty in Hin; exact Hin.
Qed.

(** X13.  The import looks for the key 'adapters' as such, while the export
    writes '{prefix}adapters'.  A state exported under a prefix that does
    not begin the word 'adapters' (any prefix ending in a dot, say) is
    therefore imported as a base-only state: the adapter of the importing
    wrapper is left as it is, and in strict mode the import fails with the
    key '{prefix}adapters' reported as unexpected or not copyable. *)
Theorem state_dict_prefix_not_recognised w prefix keep_vars
    (other : AdapterWrapper tensor) (tr : list (call tensor)) :
  (forall k, prefix +:+ k <> "adapters") ->
  exists d w1,
    state_dict None prefix keep_vars w = (Ok d, w1) /\
    forall strict,
      exists r w2,
        load_state_dict d strict {| self := other; dicts := dicts w1; trace := tr |} =
          (r, w2) /\
        adapter (self w2) = adapter other /\
        (strict = true ->
         exists m u x,
           r = Raise (LoadError m u x) /\
           (prefix +:+ "adapters" ∈ u \/ prefix +:+ "adapters" ∈ x)).
Proof.
  intros Hprefix.
  set (ds0 := dicts w ++ [∅] : list (gmap string (val tensor))).
  assert (Hd : length (dicts w) < length ds0)
    by (unfold ds0; rewrite length_app; cbn; lia).
  set (w1 := exported w ds0 None (length (dicts w)) (length ds0) prefix).
  exists (length (dicts w)), w1. split; [apply state_dict_None |].
  intros strict.
  set (w2 := {| self := other; dicts := dicts w1; trace := tr |}).
  assert (HD : deref (dicts w2) (length (dicts w)) =
               <[prefix +:+ "adapters" := VD (length ds0)]>
                 (torch_export (to_wrap (self w)) prefix)).
  { unfold w2, w1. cbn [dicts].
    rewrite (exported_destination w ds0 None (length (dicts w)) prefix Hd).
    unfold ds0 at 2. rewrite deref_app_new, (right_id_L ∅ (∪)). reflexivity. }
  assert (Habsent : deref (dicts w2) (length (dicts w)) !! "adapters" = None).
  { rewrite HD, lookup_insert_ne by apply Hprefix.
    destruct (torch_export (to_wrap (self w)) prefix !! "adapters") as [v |] eqn:E;
      [| reflexivity].
    apply torch_export_lookup_Some in E as (k & t & E & _).
    destruct (Hprefix k). symmetry. exact E. }
  eexists _, _. split; [apply (load_state_dict_absent _ _ _ Habsent) |].
  split; [reflexivity |].
  intros ->. cbn [self w2].
  destruct (torch_load_error_entry (to_wrap other)
              (deref (dicts w2) (length (dicts w))) (prefix +:+ "adapters") (length ds0))
    as (m & u & x & Herr & Hin).
  { rewrite HD. apply lookup_insert_eq. }
  exists m, u, x. cbn [dicts w2] in *. rewrite Herr. auto.
Qed.

(** X14.  Export after import gives the imported state back.  When the
    incoming state holds, beside the 'adapters' entry, the values of a base
    module of the wrapper's architecture, and under 'adapters' those of an
    adapter of the wrapper's architecture, the import succeeds, the wrapper
    holds exactly these values, and an export made afterwards holds the
    entries of the imported state again, the 'adapters' entry pointing to a
    new dictionary with the imported adapter entries. *)
Theorem import_then_export w d strict la keep_vars (b0 a0 : gmap string tensor) :
  deref (dicts w) d !! "adapters" = Some (VD la) ->
  delete "adapters" (deref (dicts w) d) = VT <$> b0 ->
  deref (dicts (popped w d)) la = VT <$> a0 ->
  same_architecture b0 (to_wrap (self w)) ->
  same_architecture a0 (adapter (self w)) ->
  exists w1 d' a' w2,
    (load_state_dict d strict w = (Ok tt, w1)) /\
    (self w1 = {| to_wrap := b0; adapter := a0 |}) /\
    (state_dict None "" keep_vars w1 = (Ok d', w2)) /\
    (deref (dicts w2) d' = <["adapters" := VD a']> (deref (dicts w) d)) /\
    (deref (dicts w2) a' = deref (dicts (popped w d)) la).
Proof.
  intros Hv Hrem HA Hb Ha.
  pose proof (same_architecture_dom _ _ Hb) as Hdb.
  pose proof (same_architecture_dom _ _ Ha) as Hda.
  pose proof (fun k t t' => same_architecture_shape _ _ k t t' Hb) as Hsb.
  pose proof (fun k t t' => same_architecture_shape _ _ k t t' Ha) as Hsa.
  destruct (load_state_dict_present_dict w d strict la Hv) as [Hpop Hrun].
  rewrite Hrem, HA in Hrun.
  rewrite (torch_load_error_export _ _ strict Hdb Hsb) in Hrun.
  assert (Hload : exists w1,
            load_state_dict d strict w = (Ok tt, w1) /\
            self w1 = {| to_wrap := b0; adapter := a0 |}).
  { destruct (bool_decide (VT <$> a0 = ∅)) eqn:Hempty.
    - eexists. split; [exact Hrun |].
      apply bool_decide_eq_true_1, fmap_empty_iff in Hempty.
      cbn [self sub_imported set_sub sub]. rewrite Hpop, Hrem.
      change (self (popped w d)) with (self w).
      rewrite (torch_loaded_export _ _ Hdb Hsb).
      assert (adapter (self w) = ∅) as ->.
      { apply dom_empty_iff_L. rewrite Hda, Hempty. apply dom_empty_L. }
      rewrite Hempty. reflexivity.
    - rewrite (torch_load_error_export _ _ strict Hda Hsa) in Hrun.
      eexists. split; [exact Hrun |].
      cbn [self sub_imported set_sub sub dicts adapter to_wrap].
      rewrite Hpop, Hrem, HA.
      change (self (popped w d)) with (self w).
      rewrite (torch_loaded_export _ _ Hdb Hsb), (torch_loaded_export _ _ Hda Hsa).
      reflexivity. }
  destruct Hload as (w1 & Hload & Hself).
  set (ds0 := dicts w1 ++ [∅] : list (gmap string (val tensor))).
  assert (Hd : length (dicts w1) < length ds0)
    by (unfold ds0; rewrite length_app; cbn; lia).
  exists w1, (length (dicts w1)), (length ds0),
    (exported w1 ds0 None (length (dicts w1)) (length ds0) "").
  split; [exact Hload |]. split; [exact Hself |].
  split; [apply state_dict_None |].
  rewrite (exported_destination w1 ds0 None (length (dicts w1)) "" Hd).
  rewrite (exported_adapter w1 ds0 None (length (dicts w1)) "" Hd).
  unfold ds0 at 2. rewrite deref_app_new, (right_id_L ∅ (∪)).
  rewrite !torch_export_empty_prefix, Hself. cbn [to_wrap adapter].
  rewrite <- Hrem, HA. split; [| reflexivity].
  change ("" +:+ "adapters") with "adapters".
  rewrite insert_delete_eq. reflexivity.
Qed.
End ExportFurther.

Lemma state_dict_prefix_not_recognised_witness :
  exists d w1 w2,
    state_dict None "layer." false (world_of example_wrapper []) = (Ok d, w1) /\
    load_state_dict d true (world_of fresh_wrapper (dicts w1)) =
      (Raise (LoadError {[ "weight"; "bias" ]}
                {[ "layer.weight"; "layer.bias"; "layer.adapters" ]} ∅), w2) /\
    adapter (self w2) = adapter fresh_wrapper.
Proof.
  destruct (state_dict_prefix_not_recognised (world_of example_wrapper [])
              "layer." false fresh_wrapper [])
    as (d & w1 & Hexport & Himport).
  { intros k. discriminate. }
  destruct (Himport true) as (r & w2 & Hrun & Hadapter & _).
  exists d, w1, w2. split; [exact Hexport |].
  split; [| exact Hadapter].
  unfold world_of. rewrite Hrun. f_equal.
  vm_compute in Hexport. injection Hexport as <- <-.
  vm_compute in Hrun. injection Hrun as <- _. vm_compute. reflexivity.
Defined.

Lemma import_then_export_witness :
  exists w1 d' a' w2,
    load_state_dict 0 true (world_of fresh_wrapper full_state) = (Ok tt, w1) /\
    self w1 = example_wrapper /\
    state_dict None "" false w1 = (Ok d', w2) /\
    deref (dicts w2) d' = <["adapters" := VD a']> (deref full_state 0) /\
    deref (dicts w2) a' = deref full_state 1.
Proof.
  destruct (import_then_export (world_of fresh_wrapper full_state) 0 true 1 false
              (to_wrap example_wrapper) (adapter example_wrapper))
    as (w1 & d' & a' & w2 & Hload & Hself & Hexport & Hd & Ha);
    try (vm_compute; reflexivity).
  exists w1, d', a', w2. split; [exact Hload |]. split; [exact Hself |].
  split; [exact Hexport |]. split; [exact Hd |]. rewrite Ha. reflexivity.
Defined.

(** ** The sharded export *)

Lemma string_app_assoc (s1 s2 s3 : string) :
  (s1 +:+ s2) +:+ s3 = s1 +:+ (s2 +:+ s3).
Proof.
  induction s1 as [| c s1 IH]; [reflexivity |].
  change (String c ((s1 +:+ s2) +:+ s3) = String c (s1 +:+ (s2 +:+ s3))).
  rewrite IH. reflexivity.
Qed.

Section ShardedProperties.
Context {sharded metadata : Type}.
Implicit Types (f g : @sharded_method sharded metadata) (o : list (Z * Z * Z))
  (md : option metadata).

(** X15.  When the sub-modules keep their keys under the prefix they are
    given, the sharded export holds every adapter entry, under
    '{prefix}adapter.'; it holds every base entry whose name does not begin
    with 'adapter.'; and it holds nothing else. *)
Theorem sharded_state_dict_namespaces f g prefix o md :
  keys_under_prefix g ->
  (forall key v,
     g (prefix +:+ "adapter.") o md !! key = Some v ->
     sharded_state_dict f g prefix o md !! key = Some v) /\
  (forall k v,
     f prefix o md !! (prefix +:+ k) = Some v ->
     (forall k', k <> "adapter." +:+ k') ->
     sharded_state_dict f g prefix o md !! (prefix +:+ k) = Some v) /\
  (dom (sharded_state_dict f g prefix o md) =
     dom (g (prefix +:+ "adapter.") o md) ∪ dom (f prefix o md)).
Proof.
  intros Hg. unfold sharded_state_dict, dict_update.
  rewrite (right_id_L ∅ (∪)). split; [| split].
  - intros key v Hkey. apply lookup_union_Some_l, Hkey.
  - intros k v Hk Hne. rewrite lookup_union_r; [exact Hk |].
    apply not_elem_of_dom. intros Hin.
    apply Hg in Hin as (k' & E). rewrite string_app_assoc in E.
    apply (inj (String.app prefix)) in E. destruct (Hne k' E).
  - apply dom_union_L.
Qed.

(** X16.  The adapter is written last: a base entry whose name is
    'adapter.' followed by the name of an adapter entry is lost, the
    adapter's entry takes its key. *)
Theorem sharded_state_dict_collision f g prefix o md k vb va :
  f prefix o md !! (prefix +:+ ("adapter." +:+ k)) = Some vb ->
  g (prefix +:+ "adapter.") o md !! ((prefix +:+ "adapter.") +:+ k) = Some va ->
  sharded_state_dict f g prefix o md !! (prefix +:+ ("adapter." +:+ k)) = Some va.
Proof.
  intros _ Ha. unfold sharded_state_dict, dict_update.
  rewrite <- string_app_assoc. apply lookup_union_Some_l, Ha.
Qed.
End ShardedProperties.

Lemma toy_sharded_keys (ps : gmap string toy_tensor) : keys_under_prefix (toy_sharded ps).
Proof.
  intros p o md key Hin. apply elem_of_dom in Hin as [v Hv].
  unfold toy_sharded in Hv.
  apply (lookup_kmap_Some (String.app p)) in Hv as (k & -> & _). eauto.
Qed.

Lemma sharded_state_dict_namespaces_witness :
  sharded_state_dict (toy_sharded (to_wrap example_wrapper))
    (toy_sharded (adapter example_wrapper)) "layer." [(0, 1, 2)%Z] None
    !! "layer.adapter.linear_in.weight" = Some (Vector [4]%Z, [(0, 1, 2)%Z]) /\
  sharded_state_dict (toy_sharded (to_wrap example_wrapper))
    (toy_sharded (adapter example_wrapper)) "layer." [(0, 1, 2)%Z] None
    !! "layer.weight" = Some (Vector [1; 2]%Z, [(0, 1, 2)%Z]).
Proof.
  destruct (sharded_state_dict_namespaces (toy_sharded (to_wrap example_wrapper))
              (toy_sharded (adapter example_wrapper)) "layer." [(0, 1, 2)%Z] None
              (toy_sharded_keys _))
    as (Hadapter & Hbase & _).
  split.
  - apply Hadapter. vm_compute. reflexivity.
  - apply (Hbase "weight"); [vm_compute; reflexivity |].
    intros k'. discriminate.
Defined.

Lemma sharded_state_dict_collision_witness :
  sharded_state_dict
    (toy_sharded {[ "weight" := Scalar 1; "adapter.linear_in.weight" := Scalar 2 ]})
    (toy_sharded (adapter example_wrapper)) "" [] None
    !! "adapter.linear_in.weight" = Some (Vector [4]%Z, []).
Proof.
  apply (sharded_state_dict_collision
           (toy_sharded {[ "weight" := Scalar 1; "adapter.linear_in.weight" := Scalar 2 ]})
           (toy_sharded (adapter example_wrapper)) "" [] None "linear_in.weight"
           (Scalar 2, []) (Vector [4]%Z, []));
    vm_compute; reflexivity.
Defined.

(** ** Applying the policy twice, on the example *)

Lemma peft_apply_twice_witness :
  exists m1 s1 s3,
    peft_model_transform (transform LoRA_default 4) example_model
      [true; true; false; true; true] = (Ok m1, s1) /\
    peft_model_transform (transform LoRA_default 4) m1 s1 =
      (Raise (AttributeError "in_features"), s3).
Proof.
  destruct (peft_model_transform (transform LoRA_default 4) example_model
              [true; true; false; true; true]) as [r s1] eqn:Hrun.
  assert (Hr : exists m1, r = Ok m1)
    by (vm_compute in Hrun; injection Hrun as <- _; eauto).
  destruct Hr as [m1 ->].
  destruct (peft_apply_twice LoRA_default 4 example_model m1 _ s1 s1 eq_refl Hrun)
    as (s3 & [Hok | Hraise]);
    vm_compute in Hrun; injection Hrun as <- <-.
  - vm_compute in Hok. discriminate Hok.
  - eexists _, _, s3. split; [reflexivity | exact Hraise].
Defined.
